(** * maid-chan: a LINE chat-bot webhook for Minecraft server status

    Shallow embedding of the two program files of the repository,
    [src/main.ts] (the "hostname" program, module [MainTs]) and its sibling
    (the "server URL" program, module [Part000]), followed by the properties
    of the command dispatch and reply pipeline and of the registration
    route. *)

From Stdlib Require Import ZArith NArith Lia Ascii String DecimalString.
From stdpp Require Import base option list strings gmap.

Local Open Scope Z_scope.
Local Open Scope string_scope.
Local Open Scope list_scope.

(** ** JavaScript primitives used by the program *)

(** The line feed produced by the escape [\n] and by a line break inside a
    template literal. *)
Definition LF : string := String "010"%char EmptyString.

(** [s.startsWith(p)], the test [indexOf] performs at each position. *)
Fixpoint startsWith (p s : string) : bool :=
  match p, s with
  | EmptyString, _ => true
  | String a p', String b s' => if Ascii.eqb a b then startsWith p' s' else false
  | String _ _, EmptyString => false
  end.

(** [String.prototype.indexOf]: the smallest position at which
    [searchString] occurs, [-1] when there is none. [k] is the position of
    the first character of [s] in the whole string. *)
Fixpoint indexOf_from (searchString s : string) (k : Z) : Z :=
  if startsWith searchString s then k
  else match s with
       | EmptyString => -1
       | String _ s' => indexOf_from searchString s' (k + 1)
       end.

Definition indexOf (s searchString : string) : Z := indexOf_from searchString s 0.

(** [String.prototype.toLowerCase] on a text of ASCII characters. *)
Definition lower (c : ascii) : ascii :=
  let n := N_of_ascii c in
  if ((65 <=? n) && (n <=? 90))%N then ascii_of_N (n + 32) else c.

Fixpoint toLowerCase (s : string) : string :=
  match s with
  | EmptyString => EmptyString
  | String c s' => String (lower c) (toLowerCase s')
  end.

(** [Number.prototype.toString] on a non-negative integer. *)
Definition Number_toString (n : N) : string :=
  NilEmpty.string_of_uint (N.to_uint n).

(** [Array.prototype.toString] on an array of strings: the elements joined
    by a comma. *)
Fixpoint Array_toString (a : list string) : string :=
  match a with
  | [] => ""
  | [x] => x
  | x :: rest => x +:+ "," +:+ Array_toString rest
  end.

(** ** Commands *)

Inductive commandType := HELP | MCSTATUS | INVALID.

Inductive replyErrors := REDIS_FAIL_GET | REDIS_NOT_STRING | MC_QUERY_FAIL.

(** The string value of each member of the [replyErrors] enum. *)
Definition replyErrors_value (e : replyErrors) : string :=
  match e with
  | REDIS_FAIL_GET => "redis_fail_get"
  | REDIS_NOT_STRING => "redis_not_string"
  | MC_QUERY_FAIL => "mc_query_fail"
  end.

Definition extractCommand (message : string) : commandType :=
  if negb (indexOf message "/help" =? -1)%Z then HELP
  else if negb (indexOf message "/mcstatus" =? -1)%Z then MCSTATUS
  else INVALID.

(** The specification's reading of "contains the token": the token occurs
    somewhere in the text, with arbitrary text before and after it. *)
Definition contains (token text : string) : Prop :=
  exists before after, text = before +:+ token +:+ after.

(** ** Types of the libraries the program is written against *)

(** The error values the program can meet: a failed Redis command, a failed
    status query, a reply the LINE API refuses, and the [TypeError] of the
    [URL] constructor. *)
Inductive Error :=
| RedisError
| StatusError
| HTTPError
| TypeError_InvalidURL.

(** Outgoing LINE message object, [{type: "text", text: ...}]. *)
Record TextMessage := { type : string; text : string }.

(** Message carried by an incoming message event, by its [type] tag. *)
Inductive EventMessage :=
| TextEventMessage (text : string)
| ImageEventMessage
| VideoEventMessage
| AudioEventMessage
| LocationEventMessage
| FileEventMessage
| StickerEventMessage.

(** Incoming webhook event, by its [type] tag; only what the program reads
    is kept. *)
Inductive WebhookEvent :=
| MessageEvent (replyToken : string) (message : EventMessage)
| FollowEvent (replyToken : string)
| UnfollowEvent
| JoinEvent (replyToken : string)
| LeaveEvent
| PostbackEvent (replyToken : string) (data : string)
| BeaconEvent (replyToken : string).

Record WebhookRequestBody := { events : list WebhookEvent }.

Record ReplyableEvent := { replyToken : string }.

(** The acknowledgement the LINE API answers a reply with. *)
Inductive MessageAPIResponseBase := APIResponse.

Record SamplePlayer := { name : string }.

(** Modelled from the spec: the class [StatusResponse] of
    minecraft-server-util, whose declaration is not part of the repository;
    the specification's StatusSnapshot
    [{host, port, version, onlinePlayers, maxPlayers, playerNames,
    description}]. [samplePlayers] is [null] ([None]) or an array;
    [description] stands for the text the description renders as. *)
Record StatusResponse := {
  host : string;
  port : N;
  version : string;
  onlinePlayers : N;
  maxPlayers : N;
  samplePlayers : option (list SamplePlayer);
  description : string
}.

(** Options of a status query: [{port: ...}], where [None] is [NaN]. *)
Record StatusOptions := { options_port : option N }.

(** What the program reads of a parsed [URL]. *)
Record URL := { hostname : string; URL_port : string }.

(** Options of the [isURL] check. *)
Record URLOptions := {
  protocols : list string;
  require_protocol : bool;
  validate_length : bool;
  require_host : bool;
  require_port : bool
}.

(** ** Promises *)

(** The promises the program builds: a call of [lineClient.replyMessage], a
    status query, the [then] and [catch] combinators, and the rejected
    promise a [then] callback leaves when it throws. *)
Inductive Promise : Type -> Type :=
| replyMessage (token : string) (message : TextMessage) :
    Promise MessageAPIResponseBase
| status (host : string) (options : option StatusOptions) :
    Promise StatusResponse
| then_ {A B : Type} (p : Promise A) (onFulfilled : A -> Promise B) : Promise B
| catch {A : Type} (p : Promise A) (onRejected : Error -> Promise A) : Promise A
| rejected {A : Type} (reason : Error) : Promise A.

Inductive Settled (A : Type) :=
| Fulfilled (value : A)
| Rejected (reason : Error).
Arguments Fulfilled {A} value.
Arguments Rejected {A} reason.

(** One outbound call of the LINE reply API. *)
Record ReplyCall := { call_token : string; call_message : TextMessage }.

(** The collaborators outside the process: whether the LINE API accepts a
    reply, what a status query answers ([None]: the query fails), what the
    [URL] constructor makes of a string ([None]: it throws), and the
    [isURL] check of the validator library under given options. *)
Record World := {
  line_accepts : string -> TextMessage -> bool;
  mc_query : string -> option StatusOptions -> option StatusResponse;
  new_URL : string -> option URL;
  isURL : URLOptions -> string -> bool
}.

(** Running a promise to its settlement; the second component lists the
    calls of the reply API made on the way, in order. *)
Fixpoint settle (w : World) {A : Type} (p : Promise A) : Settled A * list ReplyCall :=
  match p in Promise T return Settled T * list ReplyCall with
  | replyMessage token message =>
      (if line_accepts w token message then Fulfilled APIResponse
       else Rejected HTTPError,
       [{| call_token := token; call_message := message |}])
  | status h o =>
      (match mc_query w h o with
       | Some response => Fulfilled response
       | None => Rejected StatusError
       end, [])
  | then_ p onFulfilled =>
      match settle w p with
      | (Fulfilled v, calls) =>
          let '(r, calls') := settle w (onFulfilled v) in (r, (calls ++ calls')%list)
      | (Rejected e, calls) => (Rejected e, calls)
      end
  | catch p onRejected =>
      match settle w p with
      | (Fulfilled v, calls) => (Fulfilled v, calls)
      | (Rejected e, calls) =>
          let '(r, calls') := settle w (onRejected e) in (r, (calls ++ calls')%list)
      end
  | rejected e => (Rejected e, [])
  end.

(** ** The Redis client *)

(** The store and how it answers: when [fault] is set it answers every
    command with that error (an error reply, or the link lost while the
    command is under way). *)
Record Redis := { data : gmap string string; fault : option Error }.

(** Result of running a function body: it returns or it throws. *)
Inductive Completion (A : Type) :=
| Returns (value : A)
| Throws (e : Error).
Arguments Returns {A} value.
Arguments Throws {A} e.

(** A command handed to the Redis client together with its callback
    [(err, reply) => ...]; [reply] is a string or [null]. *)
Inductive RedisCommand :=
| GET (key : string)
      (callback : option Error -> option string ->
                  Completion (Promise MessageAPIResponseBase)).

(** What the client passes to the callback of [get] once the store has
    answered the command. While the link to the store is down the client
    keeps the command in its queue and the callback does not run: in the
    event loop below that is a command that stays in the queue. *)
Definition redis_get (r : Redis) (key : string) : option Error * option string :=
  match fault r with
  | Some e => (Some e, None)
  | None => (None, data r !! key)
  end.

(** What [set] does to the store and passes to its callback; the client
    refuses a value that is [undefined] ([None]). *)
Definition redis_set (r : Redis) (key : string) (value : option string)
  : Redis * (option Error * option string) :=
  match fault r, value with
  | Some e, _ => (r, (Some e, None))
  | None, None => (r, (Some RedisError, None))
  | None, Some v => ({| data := <[key := v]> (data r); fault := None |},
                     (None, Some "OK"))
  end.

(** ** Code shared by the two programs *)

Definition linePromiseReply (event : ReplyableEvent) (text : string)
  : Promise MessageAPIResponseBase :=
  replyMessage (replyToken event) {| type := "text"; text := text |}.

Definition helpMessage : string :=
  "" +:+
  "Command list:" +:+ LF +:+
  "/help Display this message" +:+ LF +:+
  "/mcstatus Check the status of my master's Minecraft Server" +:+ LF.

(** The text of an error reply, [`Server is offline. Code: ${code}`]. *)
Definition offline (code : replyErrors) : string :=
  "Server is offline. Code: " +:+ replyErrors_value code.

(** The [Players:] field of the status text. *)
Definition players_field (srvResp : StatusResponse) : string :=
  match samplePlayers srvResp with
  | None => "none"
  | Some players =>
      if (Z.of_nat (length players) <? 1)%Z then "none"
      else Array_toString (map name players)
  end.

(** What one call of the mapping function of [handleEvent] does: the value
    it returns ([None] is [undefined]) and the Redis commands it issues. *)
Record Mapped := {
  returned : option (Promise MessageAPIResponseBase);
  issued : list RedisCommand
}.

(** [v !== undefined] *)
Definition defined {A : Type} (v : option A) : bool :=
  match v with Some _ => true | None => false end.

(** What the event loop does with an issued command once Redis has
    answered, when nothing else runs in between: the callback runs; the
    reply calls of the promise it returns are made, and since nothing
    awaits that promise, its rejection is an unhandled one; or the callback
    throws and its exception is left uncaught. *)
Definition run_command (w : World) (r : Redis) (c : RedisCommand)
  : list ReplyCall * list Error :=
  match c with
  | GET key callback =>
      let '(err, reply) := redis_get r key in
      match callback err reply with
      | Returns p =>
          (snd (settle w p),
           match fst (settle w p) with
           | Rejected e => [e]
           | Fulfilled _ => []
           end)
      | Throws e => ([], [e])
      end
  end.

(** The issued commands answered one after the other, each run to its end
    before the next is answered. The program installs no handler for
    uncaught exceptions or unhandled rejections: the first one ends the
    process and the commands after it are not run. *)
Fixpoint run_commands (w : World) (r : Redis) (commands : list RedisCommand)
  : list ReplyCall * list Error :=
  match commands with
  | [] => ([], [])
  | c :: rest =>
      match snd (run_command w r c) with
      | [] => (fst (run_command w r c) ++ fst (run_commands w r rest),
               snd (run_commands w r rest))
      | _ :: _ => run_command w r c
      end
  end.

(** The reply calls made by the promises the mapping function returned. *)
Definition immediate_calls (w : World)
    (results : list (option (Promise MessageAPIResponseBase))) : list ReplyCall :=
  mbind (fun v => match v with
                  | Some p => snd (settle w p)
                  | None => []
                  end) results.

(** What serving one webhook request amounts to: the promises handed to
    [Promise.all], every reply call made, and the exception or rejection
    nobody handled, which ends the process. *)
Record Served := {
  awaited : list (option (Promise MessageAPIResponseBase));
  calls : list ReplyCall;
  uncaught : list Error
}.

(** The handler of [POST /webhook], given the program's [handleEvent]:
    [Promise.all(handleEvent(req.body).filter(v => v !== undefined))], and
    the callbacks of the issued Redis commands run by the event loop, in
    the run in which the store answers every command and each command is
    run to its end before the next is answered. The status queries of
    several STATUS commands run side by side, so this is one of the runs of
    such a batch; all of them are the runs of [step] below. *)
Definition serve_webhook
    (handleEvent : WebhookRequestBody ->
                   list (option (Promise MessageAPIResponseBase)) * list RedisCommand)
    (w : World) (r : Redis) (body : WebhookRequestBody) : Served :=
  let '(results, commands) := handleEvent body in
  let later := run_commands w r commands in
  {| awaited := List.filter defined results;
     calls := (immediate_calls w results ++ fst later)%list;
     uncaught := snd later |}.

(** ** The event loop *)

(** A promise chain under way: it is settled, or it waits for the LINE API
    to answer a reply call it has made, or for a status query it has
    started; [k] is what the chain does with the answer. *)
Inductive Proc (A : Type) : Type :=
| Settle (s : Settled A)
| AwaitReply (token : string) (message : TextMessage)
    (k : Settled MessageAPIResponseBase -> Proc A)
| AwaitQuery (host : string) (options : option StatusOptions)
    (k : Settled StatusResponse -> Proc A).
Arguments Settle {A} s.
Arguments AwaitReply {A} token message k.
Arguments AwaitQuery {A} host options k.

(** [p.then(onFulfilled)] and [p.catch(onRejected)] on a chain under way. *)
Fixpoint Proc_then {A B : Type} (p : Proc A) (onFulfilled : A -> Proc B) : Proc B :=
  match p with
  | Settle (Fulfilled v) => onFulfilled v
  | Settle (Rejected e) => Settle (Rejected e)
  | AwaitReply t m k => AwaitReply t m (fun s => Proc_then (k s) onFulfilled)
  | AwaitQuery h o k => AwaitQuery h o (fun s => Proc_then (k s) onFulfilled)
  end.

Fixpoint Proc_catch {A : Type} (p : Proc A) (onRejected : Error -> Proc A) : Proc A :=
  match p with
  | Settle (Fulfilled v) => Settle (Fulfilled v)
  | Settle (Rejected e) => onRejected e
  | AwaitReply t m k => AwaitReply t m (fun s => Proc_catch (k s) onRejected)
  | AwaitQuery h o k => AwaitQuery h o (fun s => Proc_catch (k s) onRejected)
  end.

(** Building a promise starts it: the chain runs up to the first answer it
    has to wait for. *)
Fixpoint start {A : Type} (p : Promise A) : Proc A :=
  match p in Promise T return Proc T with
  | replyMessage token message => AwaitReply token message (fun s => Settle s)
  | status h o => AwaitQuery h o (fun s => Settle s)
  | then_ p onFulfilled => Proc_then (start p) (fun v => start (onFulfilled v))
  | catch p onRejected => Proc_catch (start p) (fun e => start (onRejected e))
  | rejected e => Settle (Rejected e)
  end.

(** The reply call made when a chain comes to wait at [p]. *)
Definition made {A : Type} (p : Proc A) : list ReplyCall :=
  match p with
  | AwaitReply token message _ =>
      [{| call_token := token; call_message := message |}]
  | _ => []
  end.

(** The chain after the outside has answered what it waits for. *)
Definition answered (w : World) {A : Type} (p : Proc A) : option (Proc A) :=
  match p with
  | Settle _ => None
  | AwaitReply token message k =>
      Some (k (if line_accepts w token message then Fulfilled APIResponse
               else Rejected HTTPError))
  | AwaitQuery h o k =>
      Some (k (match mc_query w h o with
               | Some response => Fulfilled response
               | None => Rejected StatusError
               end))
  end.

(** The process while the callbacks of a webhook request are under way:
    the commands the store has not answered yet, in the order they were
    issued; the promise chains that wait for an answer from outside; the
    reply calls made so far; and the uncaught exception or unhandled
    rejection that ended the process, if any. *)
Record Loop := {
  queue : list RedisCommand;
  flying : list (Proc MessageAPIResponseBase);
  log : list ReplyCall;
  ended : option Error
}.

(** Where the process stands once a chain has moved on to [p]: a chain that
    waits joins the others between [before] and [after] and its reply call
    is made; a fulfilled chain leaves; a rejected chain, which nothing
    handles, ends the process. *)
Definition land (q : list RedisCommand)
    (before after : list (Proc MessageAPIResponseBase))
    (lg : list ReplyCall) (p : Proc MessageAPIResponseBase) : Loop :=
  match p with
  | Settle (Fulfilled _) =>
      {| queue := q; flying := before ++ after; log := lg; ended := None |}
  | Settle (Rejected e) =>
      {| queue := q; flying := before ++ after; log := lg; ended := Some e |}
  | _ =>
      {| queue := q; flying := before ++ p :: after; log := lg ++ made p;
         ended := None |}
  end.

(** One turn of the event loop. The store answers the oldest command and
    its callback runs: it throws, which ends the process, or it returns a
    promise, which is started. Or the outside answers one of the chains
    that wait, in any order. Nothing happens once the process has ended. A
    command whose answer never comes (the link to the store is down), or a
    query or reply that hangs, is a turn that is never taken. *)
Inductive step (w : World) (r : Redis) : Loop -> Loop -> Prop :=
| step_throws key callback q fl lg e :
    callback (redis_get r key).1 (redis_get r key).2 = Throws e ->
    step w r
      {| queue := GET key callback :: q; flying := fl; log := lg; ended := None |}
      {| queue := q; flying := fl; log := lg; ended := Some e |}
| step_returns key callback q fl lg p :
    callback (redis_get r key).1 (redis_get r key).2 = Returns p ->
    step w r
      {| queue := GET key callback :: q; flying := fl; log := lg; ended := None |}
      (land q fl [] lg (start p))
| step_answer q before p after lg next :
    answered w p = Some next ->
    step w r
      {| queue := q; flying := before ++ p :: after; log := lg; ended := None |}
      (land q before after lg next).

(** The process right after [handleEvent] has returned: the replies of the
    returned promises have been made, the issued commands wait for the
    store. *)
Definition boot
    (handleEvent : WebhookRequestBody ->
                   list (option (Promise MessageAPIResponseBase)) * list RedisCommand)
    (w : World) (body : WebhookRequestBody) : Loop :=
  {| queue := (handleEvent body).2; flying := [];
     log := immediate_calls w (handleEvent body).1; ended := None |}.

(** The states a webhook request can bring the process to. *)
Definition runs
    (handleEvent : WebhookRequestBody ->
                   list (option (Promise MessageAPIResponseBase)) * list RedisCommand)
    (w : World) (r : Redis) (body : WebhookRequestBody) (s : Loop) : Prop :=
  rtc (step w r) (boot handleEvent w body) s.

(** Nothing is left to happen: the process has ended, or every command has
    been answered and every chain has settled. *)
Definition finished (s : Loop) : Prop :=
  ended s <> None \/ (queue s = [] /\ flying s = []).

(** What a chain that waits at [p] goes on to do when every answer comes:
    how it settles and the reply calls it still makes. *)
Fixpoint rest_of (w : World) {A : Type} (p : Proc A) : Settled A * list ReplyCall :=
  match p with
  | Settle s => (s, [])
  | AwaitReply token message k =>
      let next := k (if line_accepts w token message then Fulfilled APIResponse
                     else Rejected HTTPError) in
      ((rest_of w next).1, made next ++ (rest_of w next).2)
  | AwaitQuery h o k =>
      let next := k (match mc_query w h o with
                     | Some response => Fulfilled response
                     | None => Rejected StatusError
                     end) in
      ((rest_of w next).1, made next ++ (rest_of w next).2)
  end.

(** The same, with the reply call made on coming to [p]. *)
Definition whole_of (w : World) {A : Type} (p : Proc A) : Settled A * list ReplyCall :=
  ((rest_of w p).1, made p ++ (rest_of w p).2).

(** ** Express and express-validator *)

(** One entry of a validation result. *)
Record ValidationError := {
  value : option string;
  msg : string;
  param : string;
  location : string
}.

Inductive Body :=
| Text (s : string)
| Null
| Json (errors : list ValidationError).

(** The response under construction; a fresh one has status 200. *)
Record Response := {
  statusCode : Z;
  headers_out : list (string * string);
  sent : option Body
}.

Definition fresh_response : Response :=
  {| statusCode := 200; headers_out := []; sent := None |}.

(** [res.status(code)] *)
Definition res_status (code : Z) (res : Response) : Response :=
  {| statusCode := code; headers_out := headers_out res; sent := sent res |}.

(** The argument of [res.header(field)] in its one-argument form: an object
    whose enumerable properties become header fields. A value that is not
    an object, such as a number, has none. *)
Inductive HeaderArg :=
| Fields (fields : list (string * string))
| Number (n : Z).

(** [res.header(field)]: sets header fields, never the status code. *)
Definition res_header (field : HeaderArg) (res : Response) : Response :=
  match field with
  | Fields fields =>
      {| statusCode := statusCode res;
         headers_out := (headers_out res ++ fields)%list;
         sent := sent res |}
  | Number _ => res
  end.

(** [res.send(body)] and [res.json(body)] *)
Definition res_send (body : Body) (res : Response) : Response :=
  {| statusCode := statusCode res; headers_out := headers_out res;
     sent := Some body |}.

(** What the program and its validator read of a request. The names of
    [headers] are in lower case. The program installs no cookie parser and
    its routes have no parameters, so [req.cookies] and [req.params] hold no
    field. *)
Record Request := {
  headers : gmap string string;
  body : gmap string string;
  query : gmap string string;
  ip : string;
  remotePort : N
}.

(** The process while it serves one registration request: the response,
    the Redis store and the console. *)
Record Server := {
  res : Response;
  redis : Redis;
  console : list string
}.

Definition on_res (f : Response -> Response) (s : Server) : Server :=
  {| res := f (res s); redis := redis s; console := console s |}.

Definition console_warn (line : string) (s : Server) : Server :=
  {| res := res s; redis := redis s; console := (console s ++ [line])%list |}.

(** A validator of a chain, and whether [.not()] precedes it. *)
Inductive Validator :=
| isEmpty
| isURL_ (options : URLOptions).

Record ChainItem := { negated : bool; validator : Validator }.

(** [check(field, message)] followed by its validators. *)
Record ValidationChain := {
  field : string;
  message : string;
  items : list ChainItem
}.

Definition validator_holds (w : World) (v : Validator) (str : string) : bool :=
  match v with
  | isEmpty => (Z.of_nat (String.length str) =? 0)%Z
  | isURL_ options => isURL w options str
  end.

(** One place of the request where [check] looks for the field. *)
Record FieldInstance := {
  instance_location : string;
  instance_path : string;
  instance_value : option string
}.

(** The instances of a field: [check] looks in the body, the cookies, the
    headers (under the lower-case name), the route parameters and the
    query, in this order. *)
Definition field_instances (req : Request) (name : string) : list FieldInstance :=
  [ {| instance_location := "body"; instance_path := name;
       instance_value := body req !! name |};
    {| instance_location := "cookies"; instance_path := name;
       instance_value := None |};
    {| instance_location := "headers"; instance_path := toLowerCase name;
       instance_value := headers req !! toLowerCase name |};
    {| instance_location := "params"; instance_path := name;
       instance_value := None |};
    {| instance_location := "query"; instance_path := name;
       instance_value := query req !! name |} ].

(** The instances that are validated: every one that holds a value; when
    none does, the first one, for the error report. *)
Definition validated_instances (instances : list FieldInstance)
  : list FieldInstance :=
  match List.filter (fun i => defined (instance_value i)) instances with
  | [] => take 1 instances
  | withValue => withValue
  end.

(** Running a chain on a request: validator after validator, each on every
    validated instance; a missing value counts as the empty string, and
    every validator that does not hold (that holds, after [.not()]) adds
    an entry for the instance. *)
Definition run_chain (w : World) (chain : ValidationChain) (req : Request)
  : list ValidationError :=
  let instances := validated_instances (field_instances req (field chain)) in
  mbind (fun item =>
           mbind (fun i =>
                    if xorb (negated item)
                         (validator_holds w (validator item)
                            (default "" (instance_value i)))
                    then []
                    else [{| value := instance_value i; msg := message chain;
                             param := instance_path i;
                             location := instance_location i |}])
                 instances)
        (items chain).

(** The second element of the validation arrays, given the result of
    [validationResult(req)]. *)
Definition report_errors (errors : list ValidationError)
    (next : Server -> Server) (s : Server) : Server :=
  if negb (Z.of_nat (length errors) =? 0)%Z
  then on_res (res_send (Json errors)) s
  else next s.

(** [process.env] is read as a map from names to strings. *)
Definition authMiddleware (env : gmap string string) (req : Request)
    (next : Server -> Server) (s : Server) : Server :=
  match headers req !! "authorization" with
  | None =>
      console_warn
        ("Undefined auth header from " +:+ ip req +:+ ":"
           +:+ Number_toString (remotePort req))
        (on_res (res_send (Text "Undefined auth header"))
           (on_res (res_status 400) s))
  | Some authorization =>
      if negb (bool_decide (Some authorization = env !! "AUTH_KEY"))
      then
        console_warn
          ("Invalid auth header from " +:+ ip req +:+ ":"
             +:+ Number_toString (remotePort req))
          (on_res (res_send (Text "Invalid auth header"))
             (on_res (res_status 400) s))
      else next s
  end.

(** The callback [(err, reply) => ...] of [redisClient.set] in the two
    registration routes. *)
Definition set_callback (err : option Error) (reply : option string)
    (s : Server) : Server :=
  match err with
  | Some _ =>
      on_res (res_send (Text "Server Error"))
        (on_res (res_header (Number 500))
           (console_warn "Error" s))
  | None =>
      on_res (res_send (match reply with Some ok => Text ok | None => Null end)) s
  end.

(** ** [src/main.ts]: the server is registered by host name *)

Module MainTs.

Definition formatServerResponse (srvResp : StatusResponse) : string :=
  LF +:+
  "    Server address: " +:+ host srvResp +:+ LF +:+ LF +:+
  "    Server version: " +:+ version srvResp +:+ LF +:+ LF +:+
  "    Online players: " +:+ Number_toString (onlinePlayers srvResp) +:+ "/"
    +:+ Number_toString (maxPlayers srvResp) +:+ LF +:+
  "    Players: " +:+ players_field srvResp +:+ LF +:+ LF +:+
  "    Server Description: " +:+ description srvResp +:+ " " +:+ LF +:+
  "    ".

(** The callback [(err, reply) => ...] given to [redisClient.get] in the
    MCSTATUS case. *)
Definition MCSTATUS_callback (webhookEvent : ReplyableEvent)
    (err : option Error) (reply : option string)
  : Completion (Promise MessageAPIResponseBase) :=
  match err with
  | Some _ => Returns (linePromiseReply webhookEvent (offline REDIS_FAIL_GET))
  | None =>
      match reply with
      | Some reply =>
          Returns
            (catch
               (then_ (status reply None)
                  (fun serverResponse =>
                     linePromiseReply webhookEvent
                       (formatServerResponse serverResponse)))
               (fun reason => linePromiseReply webhookEvent (offline MC_QUERY_FAIL)))
      | None => Returns (linePromiseReply webhookEvent (offline REDIS_NOT_STRING))
      end
  end.

(** The function mapped over [events] by [handleEvent]. *)
Definition handleEvent_each (webhookEvent : WebhookEvent) : Mapped :=
  match webhookEvent with
  | MessageEvent token message =>
      let event := {| replyToken := token |} in
      match message with
      | TextEventMessage text =>
          match extractCommand text with
          | HELP =>
              {| returned := Some (linePromiseReply event helpMessage);
                 issued := [] |}
          | MCSTATUS =>
              {| returned := None;
                 issued := [GET "SERVER_HOSTNAME" (MCSTATUS_callback event)] |}
          | INVALID =>
              {| returned :=
                   Some (linePromiseReply event
                           "Invalid command. Type /help to get some help");
                 issued := [] |}
          end
      | _ => {| returned := None; issued := [] |}
      end
  | _ => {| returned := None; issued := [] |}
  end.

Definition handleEvent (body : WebhookRequestBody)
  : list (option (Promise MessageAPIResponseBase)) * list RedisCommand :=
  let mapped := handleEvent_each <$> events body in
  (returned <$> mapped, mbind issued mapped).

Definition webhook : World -> Redis -> WebhookRequestBody -> Served :=
  serve_webhook handleEvent.

Definition serverHostnameValidation_chain : ValidationChain :=
  {| field := "serverHostname";
     message := "Please provide server hostname";
     items := [{| negated := true; validator := isEmpty |}] |}.

Definition serverHostnameValidation (w : World) (req : Request)
    (next : Server -> Server) (s : Server) : Server :=
  report_errors (run_chain w serverHostnameValidation_chain req) next s.

(** [POST /setServerHostname] *)
Definition setServerHostname (env : gmap string string) (w : World)
    (req : Request) (s : Server) : Server :=
  authMiddleware env req
    (serverHostnameValidation w req
       (fun s =>
          let '(redis', (err, reply)) :=
            redis_set (redis s) "SERVER_HOSTNAME" (body req !! "serverHostname") in
          set_callback err reply
            {| res := res s; redis := redis'; console := console s |}))
    s.

End MainTs.

(** ** The sibling program: the server is registered by URL *)

(** [parseInt] on the strings a [URL]'s [port] can be, the empty string or
    decimal digits: the value of the leading digits, [NaN] ([None]) when
    there is none. *)
Definition digit_of (c : ascii) : option N :=
  let n := N_of_ascii c in
  if ((48 <=? n) && (n <=? 57))%N then Some (n - 48)%N else None.

Fixpoint parseInt_digits (s : string) (acc : N) : N :=
  match s with
  | EmptyString => acc
  | String c s' =>
      match digit_of c with
      | Some d => parseInt_digits s' (10 * acc + d)%N
      | None => acc
      end
  end.

Definition parseInt (s : string) : option N :=
  match s with
  | EmptyString => None
  | String c _ =>
      match digit_of c with
      | Some _ => Some (parseInt_digits s 0)
      | None => None
      end
  end.

Module Part000.

Definition formatServerResponse (srvResp : StatusResponse)
    (ngrokPort : option string) : string :=
  LF +:+
  "    Server address: " +:+ host srvResp +:+ LF +:+ LF +:+
  "    Server port: "
    +:+ match ngrokPort with None => "25565" | Some p => p end +:+ LF +:+
  "    Server version: " +:+ version srvResp +:+ LF +:+ LF +:+
  "    Online players: " +:+ Number_toString (onlinePlayers srvResp) +:+ "/"
    +:+ Number_toString (maxPlayers srvResp) +:+ LF +:+
  "    Players: " +:+ players_field srvResp +:+ LF +:+ LF +:+
  "    Server Description: " +:+ description srvResp +:+ " " +:+ LF +:+
  "    ".

(** The callback [(err, reply) => ...] given to [redisClient.get] in the
    MCSTATUS case. [new URL(reply)] is evaluated for the host name, for the
    port, and again inside the [then] callback; the first two run in the
    callback itself, where an exception is thrown to the caller. *)
Definition MCSTATUS_callback (w : World) (webhookEvent : ReplyableEvent)
    (err : option Error) (reply : option string)
  : Completion (Promise MessageAPIResponseBase) :=
  match err with
  | Some _ => Returns (linePromiseReply webhookEvent (offline REDIS_FAIL_GET))
  | None =>
      match reply with
      | Some reply =>
          match new_URL w reply with
          | None => Throws TypeError_InvalidURL
          | Some url1 =>
              match new_URL w reply with
              | None => Throws TypeError_InvalidURL
              | Some url2 =>
                  Returns
                    (catch
                       (then_
                          (status (hostname url1)
                             (Some {| options_port := parseInt (URL_port url2) |}))
                          (fun serverResponse =>
                             match new_URL w reply with
                             | Some url3 =>
                                 linePromiseReply webhookEvent
                                   (formatServerResponse serverResponse
                                      (Some (URL_port url3)))
                             | None => rejected TypeError_InvalidURL
                             end))
                       (fun _ =>
                          linePromiseReply webhookEvent (offline MC_QUERY_FAIL)))
              end
          end
      | None => Returns (linePromiseReply webhookEvent (offline REDIS_NOT_STRING))
      end
  end.

(** The function mapped over [events] by [handleEvent]. *)
Definition handleEvent_each (w : World) (webhookEvent : WebhookEvent) : Mapped :=
  match webhookEvent with
  | MessageEvent token message =>
      let event := {| replyToken := token |} in
      match message with
      | TextEventMessage text =>
          match extractCommand text with
          | HELP =>
              {| returned := Some (linePromiseReply event helpMessage);
                 issued := [] |}
          | MCSTATUS =>
              {| returned := None;
                 issued := [GET "serverURL" (MCSTATUS_callback w event)] |}
          | INVALID =>
              {| returned :=
                   Some (linePromiseReply event
                           "Invalid command. Type /help to get some help");
                 issued := [] |}
          end
      | _ => {| returned := None; issued := [] |}
      end
  | _ => {| returned := None; issued := [] |}
  end.

Definition handleEvent (w : World) (body : WebhookRequestBody)
  : list (option (Promise MessageAPIResponseBase)) * list RedisCommand :=
  let mapped := handleEvent_each w <$> events body in
  (returned <$> mapped, mbind issued mapped).

Definition webhook (w : World) : Redis -> WebhookRequestBody -> Served :=
  serve_webhook (handleEvent w) w.

Definition serverURLValidation_chain : ValidationChain :=
  {| field := "serverURL";
     message := "Please provide a valid Minecraft server URL";
     items := [{| negated := true; validator := isEmpty |};
               {| negated := false;
                  validator :=
                    isURL_ {| protocols := ["tcp"];
                              require_protocol := true;
                              validate_length := true;
                              require_host := true;
                              require_port := true |} |}] |}.

Definition serverURLValidation (w : World) (req : Request)
    (next : Server -> Server) (s : Server) : Server :=
  report_errors (run_chain w serverURLValidation_chain req) next s.

(** [POST /serverURL] *)
Definition serverURL (env : gmap string string) (w : World)
    (req : Request) (s : Server) : Server :=
  authMiddleware env req
    (serverURLValidation w req
       (fun s =>
          let '(redis', (err, reply)) :=
            redis_set (redis s) "serverURL" (body req !! "serverURL") in
          set_callback err reply
            {| res := res s; redis := redis'; console := console s |}))
    s.

End Part000.

(** ** Configuration read at start-up *)

(** [process.env.NAME || fallback]: a variable that is unset, or set to the
    empty string, is falsy and gives the fallback. *)
Definition env_or (env : gmap string string) (name fallback : string) : string :=
  match env !! name with
  | Some v => if (Z.of_nat (String.length v) =? 0)%Z then fallback else v
  | None => fallback
  end.

Record Config := { channelAccessToken : string; channelSecret : string }.

Definition lineConfig (env : gmap string string) : Config :=
  {| channelAccessToken :=
       env_or env "CHANNEL_ACCESS_TOKEN" "YOUR_CHANNEL_ACCESS_TOKEN";
     channelSecret := env_or env "CHANNEL_SECRET" "YOUR_CHANNEL_SECRET" |}.

Definition redisConfig (env : gmap string string) : string :=
  env_or env "REDIS_URL" "redis://localhost:6379/".

(** The value of [const port = process.env.PORT || 3000]: the variable's
    text, or the number 3000. *)
Inductive PortSetting :=
| PortText (s : string)
| PortNumber (n : Z).

Definition listen_port (env : gmap string string) : PortSetting :=
  match env !! "PORT" with
  | Some v => if (Z.of_nat (String.length v) =? 0)%Z then PortNumber 3000
              else PortText v
  | None => PortNumber 3000
  end.

(** ** Collaborators and inputs for the examples *)

(** Splitting a string at its first colon. *)
Fixpoint split_colon (s : string) : option (string * string) :=
  match s with
  | EmptyString => None
  | String c s' =>
      if Ascii.eqb c ":"%char then Some ("", s')
      else match split_colon s' with
           | Some (h, p) => Some (String c h, p)
           | None => None
           end
  end.

Fixpoint all_digits (s : string) : bool :=
  match s with
  | EmptyString => true
  | String c s' => defined (digit_of c) && all_digits s'
  end.

(** A stand-in for the [URL] constructor on the inputs of the examples: it
    reads [tcp://host:port] and, like the constructor, refuses a string
    that has no scheme. *)
Definition tcp_URL (s : string) : option URL :=
  if startsWith "tcp://" s then
    match split_colon (String.substring 6 (String.length s - 6) s) with
    | Some (h, p) =>
        if negb (String.eqb h "") && negb (String.eqb p "") && all_digits p
        then Some {| hostname := h; URL_port := p |}
        else None
    | None => None
    end
  else None.

Definition a_snapshot : StatusResponse :=
  {| host := "mc.example.com"; port := 19132; version := "1.16.5";
     onlinePlayers := 2; maxPlayers := 20;
     samplePlayers := Some [{| name := "a" |}; {| name := "b" |}];
     description := "A Minecraft Server" |}.

(** A world whose game server answers ([online]) or does not. *)
Definition a_world (online : bool) : World :=
  {| line_accepts := fun _ _ => true;
     mc_query := fun _ _ => if online then Some a_snapshot else None;
     new_URL := tcp_URL;
     isURL := fun _ s => defined (tcp_URL s) |}.

(** A store holding [v] under [key], an empty one, and one that answers
    every command with an error. *)
Definition store_with (key v : string) : Redis :=
  {| data := {[ key := v ]}; fault := None |}.

Definition empty_store : Redis := {| data := ∅; fault := None |}.

Definition store_down : Redis := {| data := ∅; fault := Some RedisError |}.

(** A registration request with the given authorization header and
    address field. *)
Definition a_request (auth : option string) (key : string)
    (address : option string) : Request :=
  {| headers := match auth with
                | Some a => {[ "authorization" := a ]}
                | None => ∅
                end;
     body := match address with
             | Some a => {[ key := a ]}
             | None => ∅
             end;
     query := ∅;
     ip := "10.0.0.7";
     remotePort := 50000 |}.

Definition an_env : gmap string string := {[ "AUTH_KEY" := "s3cret" ]}.

Definition a_server (r : Redis) : Server :=
  {| res := fresh_response; redis := r; console := [] |}.

(** A batch of a STATUS command, a HELP command and a second STATUS
    command. *)
Definition a_batch : WebhookRequestBody :=
  {| events := [MessageEvent "tok1" (TextEventMessage "/mcstatus");
                MessageEvent "tok2" (TextEventMessage "/help");
                MessageEvent "tok3" (TextEventMessage "/mcstatus")] |}.

(** ** Vocabulary of the statements *)

(** The reply call that sends [text] against [token]. *)
Definition reply_call (token text : string) : ReplyCall :=
  {| call_token := token; call_message := {| type := "text"; text := text |} |}.

(** A webhook body made of one text message. *)
Definition one_text (token text : string) : WebhookRequestBody :=
  {| events := [MessageEvent token (TextEventMessage text)] |}.

(** The [type] tag of an incoming message and of an event. *)
Definition message_type (m : EventMessage) : string :=
  match m with
  | TextEventMessage _ => "text"
  | ImageEventMessage => "image"
  | VideoEventMessage => "video"
  | AudioEventMessage => "audio"
  | LocationEventMessage => "location"
  | FileEventMessage => "file"
  | StickerEventMessage => "sticker"
  end.

Definition is_message_event (e : WebhookEvent) : bool :=
  match e with MessageEvent _ _ => true | _ => false end.

(** The text messages of a batch, in order, each with its reply token. *)
Definition text_messages (l : list WebhookEvent) : list (string * string) :=
  omap (fun e => match e with
                 | MessageEvent token (TextEventMessage text) => Some (token, text)
                 | _ => None
                 end) l.

(** The reply operation owed to a text message that is not a STATUS
    command: the help text for HELP, the invalid-command text otherwise. *)
Definition static_reply (m : string * string) : Promise MessageAPIResponseBase :=
  linePromiseReply {| replyToken := m.1 |}
    (match extractCommand m.2 with
     | HELP => helpMessage
     | _ => "Invalid command. Type /help to get some help"
     end).

(** The three error texts. *)
Definition is_offline_text (t : string) : Prop :=
  t = "Server is offline. Code: redis_fail_get"
  \/ t = "Server is offline. Code: redis_not_string"
  \/ t = "Server is offline. Code: mc_query_fail".

(** The specification's rendering of the player list: the names joined by
    commas, or "none" when the list is empty or absent. *)
Definition names_or_none (players : option (list SamplePlayer)) : string :=
  match players with
  | None | Some [] => "none"
  | Some l => String.concat "," (map name l)
  end.

(** The snapshot with its own port replaced. *)
Definition with_port (p : N) (srvResp : StatusResponse) : StatusResponse :=
  {| host := host srvResp; port := p; version := version srvResp;
     onlinePlayers := onlinePlayers srvResp; maxPlayers := maxPlayers srvResp;
     samplePlayers := samplePlayers srvResp;
     description := description srvResp |}.

(** [x] is how [s] begins. *)
Definition begins (x s : string) : Prop := exists after, s = x +:+ after.



(** A status code of the 4xx class. *)
Definition is_400_class (code : Z) : Prop := 400 <= code < 500.

(** The text owed to a text message that is not a STATUS command. *)
Definition static_text (t : string) : string :=
  match extractCommand t with
  | HELP => helpMessage
  | _ => "Invalid command. Type /help to get some help"
  end.

Definition is_status (m : string * string) : bool :=
  match extractCommand m.2 with MCSTATUS => true | _ => false end.

(** The STATUS commands of a batch, in order. *)
Definition status_messages (l : list WebhookEvent) : list (string * string) :=
  List.filter is_status (text_messages l).

(** How much of a command a text is: INVALID below STATUS below HELP. *)
Definition command_rank (c : commandType) : nat :=
  match c with INVALID => 0 | MCSTATUS => 1 | HELP => 2 end.

(** The key a Redis command works on. *)
Definition command_key (c : RedisCommand) : string :=
  match c with GET key _ => key end.

(** The process as a later request finds it: a fresh response over the
    store and console the earlier request left. *)
Definition next_request (s : Server) : Server :=
  {| res := fresh_response; redis := redis s; console := console s |}.

(** The text messages of a batch that are not STATUS commands, in order. *)
Definition static_messages (l : list WebhookEvent) : list (string * string) :=
  List.filter (fun m => negb (is_status m)) (text_messages l).

(** The common shape of the mapping functions of the two programs, which
    differ by the Redis key and by the callback of the STATUS command. *)
Definition each_with (key : string)
    (callback : ReplyableEvent -> option Error -> option string ->
                Completion (Promise MessageAPIResponseBase))
    (webhookEvent : WebhookEvent) : Mapped :=
  match webhookEvent with
  | MessageEvent token (TextEventMessage t) =>
      match extractCommand t with
      | HELP =>
          {| returned := Some (linePromiseReply {| replyToken := token |} helpMessage);
             issued := [] |}
      | MCSTATUS =>
          {| returned := None;
             issued := [GET key (callback {| replyToken := token |})] |}
      | INVALID =>
          {| returned :=
               Some (linePromiseReply {| replyToken := token |}
                       "Invalid command. Type /help to get some help");
             issued := [] |}
      end
  | _ => {| returned := None; issued := [] |}
  end.

Definition handle_with (each : WebhookEvent -> Mapped) (body : WebhookRequestBody)
  : list (option (Promise MessageAPIResponseBase)) * list RedisCommand :=
  (returned <$> (each <$> events body), mbind issued (each <$> events body)).

(** The run of the callback of the STATUS command [m]. *)
Definition status_run (w : World) (r : Redis) (key : string)
    (callback : ReplyableEvent -> option Error -> option string ->
                Completion (Promise MessageAPIResponseBase))
    (m : string * string) : list ReplyCall * list Error :=
  run_command w r (GET key (callback {| replyToken := m.1 |})).

(** Where the process stands once a chain has run to its end with the
    outcome [res]: its calls are made; its rejection ends the process. *)
Definition settled_loop (q : list RedisCommand)
    (fl : list (Proc MessageAPIResponseBase)) (lg : list ReplyCall)
    (res : Settled MessageAPIResponseBase * list ReplyCall) : Loop :=
  {| queue := q; flying := fl; log := lg ++ res.2;
     ended := match res.1 with
              | Rejected e => Some e
              | Fulfilled _ => None
              end |}.

(** Every reply call the chain goes on to make is against a token that
    satisfies [P]. *)
Fixpoint replies_to (P : string -> Prop) {A : Type} (p : Proc A) : Prop :=
  match p with
  | Settle _ => True
  | AwaitReply token _ k => P token /\ forall s, replies_to P (k s)
  | AwaitQuery _ _ k => forall s, replies_to P (k s)
  end.

(** The chain waits for a status query and makes a reply call against
    [token] whatever the query answers. *)
Definition waits_for (token : string) {A : Type} (p : Proc A) : Prop :=
  match p with
  | AwaitQuery _ _ k =>
      forall s, match k s with
                | AwaitReply t _ _ => t = token
                | _ => False
                end
  | _ => False
  end.

(** A chain that has just started has made a reply call against [token],
    or will make one as soon as its status query is answered. *)
Definition owes (token : string) {A : Type} (p : Proc A) : Prop :=
  match p with
  | AwaitReply t _ _ => t = token
  | AwaitQuery _ _ _ => waits_for token p
  | Settle _ => False
  end.

(** The Redis command of the STATUS command [m]. *)
Definition command_of (key : string)
    (callback : ReplyableEvent -> option Error -> option string ->
                Completion (Promise MessageAPIResponseBase))
    (m : string * string) : RedisCommand :=
  GET key (callback {| replyToken := m.1 |}).

(** Every reply call of the promise the callback of the command returns
    is against a token that satisfies [P]. *)
Definition answers (P : string -> Prop) (c : RedisCommand) : Prop :=
  match c with
  | GET _ callback =>
      forall err reply p, callback err reply = Returns p -> replies_to P (start p)
  end.

(** The reply calls a batch makes before any command is answered. *)
Definition static_calls (l : list WebhookEvent) : list ReplyCall :=
  (fun m => reply_call m.1 (static_text m.2)) <$> static_messages l.

(** The token is that of a STATUS command of the batch. *)
Definition status_token (l : list WebhookEvent) (token : string) : Prop :=
  exists m, m ∈ status_messages l /\ token = m.1.

(** The text message [m] is in hand: its command waits for the store, or
    its chain waits for the game server and replies whatever the answer,
    or a reply call has been made against its token. *)
Definition in_hand (key : string)
    (callback : ReplyableEvent -> option Error -> option string ->
                Completion (Promise MessageAPIResponseBase))
    (s : Loop) (m : string * string) : Prop :=
  command_of key callback m ∈ queue s
  \/ (exists p, p ∈ flying s /\ waits_for m.1 p)
  \/ (exists c, c ∈ log s /\ call_token c = m.1).

(** The error a settled promise leaves to whoever awaits it. *)
Definition error_of {A : Type} (s : Settled A) : list Error :=
  match s with
  | Rejected e => [e]
  | Fulfilled _ => []
  end.

(** The reply calls still to come in a process when every answer comes:
    those made so far, those the waiting chains go on to make and those of
    the commands the store has not answered. *)
Definition calls_to_come (w : World) (r : Redis) (s : Loop) : list ReplyCall :=
  log s ++ mbind (fun p => (rest_of w p).2) (flying s)
        ++ mbind (fun c => (run_command w r c).1) (queue s).

(** The errors the waiting chains and commands of a process end with when
    every answer comes. *)
Definition errors_to_come (w : World) (r : Redis) (s : Loop) : list Error :=
  mbind (fun p => error_of (rest_of w p).1) (flying s)
  ++ mbind (fun c => (run_command w r c).2) (queue s).

(** ** Properties of the JavaScript primitives *)

Lemma startsWith_spec p s :
  startsWith p s = true <-> exists after, s = p +:+ after.
Proof.
  revert s; induction p as [|a p IH]; intros s; simpl.
  - split; [intros _; by exists s | done].
  - destruct s as [|b s].
    + split; [done | intros [after H]; discriminate H].
    + destruct (Ascii.eqb_spec a b) as [->|Hne].
      * rewrite IH. split; intros [after H]; exists after.
        -- by rewrite H.
        -- by injection H.
      * split; [done | intros [after H]; injection H; congruence].
Qed.

Lemma indexOf_from_found p s k :
  0 <= k -> indexOf_from p s k <> -1 <-> contains p s.
Proof.
  revert k; induction s as [|b s IH]; intros k Hk.
  - simpl. destruct (startsWith p "") eqn:Hp.
    + split; [intros _ | lia].
      apply startsWith_spec in Hp as [after H]. by exists "", after.
    + split; [done | intros [before [after H]]].
      destruct before; [|discriminate H].
      assert (startsWith p "" = true) by (apply startsWith_spec; by exists after).
      congruence.
  - cbn [indexOf_from]. destruct (startsWith p (String b s)) eqn:Hp.
    + split; [intros _ | lia].
      apply startsWith_spec in Hp as [after H]. by exists "", after.
    + rewrite IH by lia. split.
      * intros [before [after H]]. exists (String b before), after. by rewrite H.
      * intros [before [after H]]. destruct before as [|c before].
        -- assert (startsWith p (String b s) = true)
             by (apply startsWith_spec; by exists after).
           congruence.
        -- injection H as _ H. by exists before, after.
Qed.

Lemma indexOf_found s p : indexOf s p <> -1 <-> contains p s.
Proof. apply indexOf_from_found. lia. Qed.

Lemma indexOf_test s p :
  negb (indexOf s p =? -1)%Z = true <-> contains p s.
Proof.
  rewrite <- indexOf_found. destruct (Z.eqb_spec (indexOf s p) (-1)); simpl.
  - split; [done | intros H; by destruct H].
  - split; done.
Qed.

(** ** The command extractor *)

(** C4: [extractCommand] is a total function of the text alone that
    classifies by case-sensitive substring match: a text containing "/help"
    anywhere is HELP; otherwise a text containing "/mcstatus" anywhere is
    MCSTATUS (the STATUS command); every other text is INVALID. Matching is
    case-sensitive: the upper-case spelling of a token is not the token. *)
Theorem extractCommand_classifies :
  forall message : string,
    (extractCommand message = HELP <-> contains "/help" message)
    /\ (extractCommand message = MCSTATUS <->
        ~ contains "/help" message /\ contains "/mcstatus" message)
    /\ (extractCommand message = INVALID <->
        ~ contains "/help" message /\ ~ contains "/mcstatus" message)
    /\ extractCommand "/HELP" = INVALID
    /\ extractCommand "/McStatus" = INVALID.
Proof.
  intros message. unfold extractCommand.
  pose proof (indexOf_test message "/help") as Hh.
  pose proof (indexOf_test message "/mcstatus") as Hs.
  destruct (negb (indexOf message "/help" =? -1)%Z),
           (negb (indexOf message "/mcstatus" =? -1)%Z);
    repeat split; try done; try tauto; try (intros; tauto);
    try (intros [? ?]; tauto); intuition congruence.
Qed.

(** ** Promises of the reply pipeline *)

Lemma settle_linePromiseReply w event t :
  snd (settle w (linePromiseReply event t)) = [reply_call (replyToken event) t].
Proof. reflexivity. Qed.

Lemma run_commands_single w r c :
  run_commands w r [c] = run_command w r c.
Proof.
  cbn [run_commands]. destruct (run_command w r c) as [made [|e l]]; [|done].
  cbn [fst snd]. by rewrite app_nil_r.
Qed.

Lemma MainTs_status_calls w r token t :
  extractCommand t = MCSTATUS ->
  MainTs.webhook w r (one_text token t)
  = {| awaited := [];
       calls := (run_command w r
                   (GET "SERVER_HOSTNAME"
                      (MainTs.MCSTATUS_callback {| replyToken := token |}))).1;
       uncaught := (run_command w r
                      (GET "SERVER_HOSTNAME"
                         (MainTs.MCSTATUS_callback {| replyToken := token |}))).2 |}.
Proof.
  intros H. unfold MainTs.webhook, serve_webhook, MainTs.handleEvent.
  cbn [one_text events fmap list_fmap MainTs.handleEvent_each].
  rewrite H. cbn [returned issued mbind list_bind app List.filter defined].
  rewrite run_commands_single. reflexivity.
Qed.

Lemma Part000_status_calls w r token t :
  extractCommand t = MCSTATUS ->
  Part000.webhook w r (one_text token t)
  = {| awaited := [];
       calls := (run_command w r
                   (GET "serverURL"
                      (Part000.MCSTATUS_callback w {| replyToken := token |}))).1;
       uncaught := (run_command w r
                      (GET "serverURL"
                         (Part000.MCSTATUS_callback w {| replyToken := token |}))).2 |}.
Proof.
  intros H. unfold Part000.webhook, serve_webhook, Part000.handleEvent.
  cbn [one_text events fmap list_fmap Part000.handleEvent_each].
  rewrite H. cbn [returned issued mbind list_bind app List.filter defined].
  rewrite run_commands_single. reflexivity.
Qed.

(** Every text the STATUS callback of the hostname program can send. *)
Lemma MainTs_run_command_texts w r token c :
  c ∈ (run_command w r
         (GET "SERVER_HOSTNAME"
            (MainTs.MCSTATUS_callback {| replyToken := token |}))).1 ->
  call_token c = token
  /\ (is_offline_text (text (call_message c))
      \/ exists srvResp,
           text (call_message c) = MainTs.formatServerResponse srvResp).
Proof.
  unfold run_command, redis_get, MainTs.MCSTATUS_callback, is_offline_text.
  destruct (fault r) as [e|]; simpl.
  - intros ->%list_elem_of_singleton. simpl. auto.
  - destruct (data r !! "SERVER_HOSTNAME") as [v|]; simpl.
    + destruct (mc_query w v None) as [srvResp|]; simpl.
      * destruct (line_accepts w _ _); simpl.
        -- intros ->%list_elem_of_singleton. simpl. eauto.
        -- intros [->| ->%list_elem_of_singleton]%elem_of_cons; simpl; eauto.
      * intros ->%list_elem_of_singleton. simpl. auto.
    + intros ->%list_elem_of_singleton. simpl. auto.
Qed.

(** Every text the STATUS callback of the server-URL program can send. *)
Lemma Part000_run_command_texts w r token c :
  c ∈ (run_command w r
         (GET "serverURL"
            (Part000.MCSTATUS_callback w {| replyToken := token |}))).1 ->
  call_token c = token
  /\ (is_offline_text (text (call_message c))
      \/ exists srvResp ngrokPort,
           text (call_message c)
           = Part000.formatServerResponse srvResp ngrokPort).
Proof.
  unfold run_command, redis_get, Part000.MCSTATUS_callback, is_offline_text.
  destruct (fault r) as [e|]; simpl.
  - intros ->%list_elem_of_singleton. simpl. auto.
  - destruct (data r !! "serverURL") as [v|]; simpl.
    + destruct (new_URL w v) as [u|] eqn:Hu; simpl.
      * destruct (mc_query w _ _) as [srvResp|]; simpl.
        -- destruct (line_accepts w _ _); simpl.
           ++ intros ->%list_elem_of_singleton. simpl. eauto.
           ++ intros [->| ->%list_elem_of_singleton]%elem_of_cons; simpl; eauto.
        -- intros ->%list_elem_of_singleton. simpl. auto.
      * by intros ?%elem_of_nil.
    + intros ->%list_elem_of_singleton. simpl. auto.
Qed.

(** ** The STATUS path *)

(** C3: for a STATUS command every failure branch replies with the literal
    text "Server is offline. Code: <error_code>": a failed store read gives
    the code redis_fail_get, a read that succeeds with an absent (non-string)
    value gives redis_not_string, and a failed status query against a
    present value gives mc_query_fail; every text sent on the STATUS path is
    one of these three or the formatted status. Both programs. *)
Theorem status_failures_reply_offline_code :
  forall (w : World) (r : Redis) (token t : string),
    extractCommand t = MCSTATUS ->
    (offline REDIS_FAIL_GET = "Server is offline. Code: redis_fail_get"
     /\ offline REDIS_NOT_STRING = "Server is offline. Code: redis_not_string"
     /\ offline MC_QUERY_FAIL = "Server is offline. Code: mc_query_fail")
    /\ (forall e, fault r = Some e ->
          calls (MainTs.webhook w r (one_text token t))
          = [reply_call token (offline REDIS_FAIL_GET)]
          /\ calls (Part000.webhook w r (one_text token t))
             = [reply_call token (offline REDIS_FAIL_GET)])
    /\ (fault r = None -> data r !! "SERVER_HOSTNAME" = None ->
          calls (MainTs.webhook w r (one_text token t))
          = [reply_call token (offline REDIS_NOT_STRING)])
    /\ (fault r = None -> data r !! "serverURL" = None ->
          calls (Part000.webhook w r (one_text token t))
          = [reply_call token (offline REDIS_NOT_STRING)])
    /\ (forall v, fault r = None -> data r !! "SERVER_HOSTNAME" = Some v ->
          mc_query w v None = None ->
          calls (MainTs.webhook w r (one_text token t))
          = [reply_call token (offline MC_QUERY_FAIL)])
    /\ (forall v u, fault r = None -> data r !! "serverURL" = Some v ->
          new_URL w v = Some u ->
          mc_query w (hostname u)
            (Some {| options_port := parseInt (URL_port u) |}) = None ->
          calls (Part000.webhook w r (one_text token t))
          = [reply_call token (offline MC_QUERY_FAIL)])
    /\ (forall c, c ∈ calls (MainTs.webhook w r (one_text token t)) ->
          is_offline_text (text (call_message c))
          \/ exists srvResp,
               text (call_message c) = MainTs.formatServerResponse srvResp)
    /\ (forall c, c ∈ calls (Part000.webhook w r (one_text token t)) ->
          is_offline_text (text (call_message c))
          \/ exists srvResp ngrokPort,
               text (call_message c)
               = Part000.formatServerResponse srvResp ngrokPort).
Proof.
  intros w r token t Hcmd.
  rewrite (MainTs_status_calls w r token t Hcmd).
  rewrite (Part000_status_calls w r token t Hcmd).
  cbn [calls].
  split; [by repeat split|].
  split; [|split; [|split; [|split; [|split; [|split]]]]].
  - intros e He. unfold run_command, redis_get. by rewrite He.
  - intros Hf Hd. unfold run_command, redis_get. by rewrite Hf, Hd.
  - intros Hf Hd. unfold run_command, redis_get. by rewrite Hf, Hd.
  - intros v Hf Hd Hq. unfold run_command, redis_get. rewrite Hf, Hd.
    simpl. by rewrite Hq.
  - intros v u Hf Hd Hu Hq. unfold run_command, redis_get. rewrite Hf, Hd.
    simpl. rewrite Hu. simpl. by rewrite Hq.
  - intros c Hc. by apply MainTs_run_command_texts in Hc as [_ Hc].
  - intros c Hc. by apply Part000_run_command_texts in Hc as [_ Hc].
Qed.

(** C3 at a store whose connection is down and at a game server that does
    not answer. *)
Lemma status_failures_reply_offline_code_witness :
  calls (MainTs.webhook (a_world false) store_down (one_text "tok" "/mcstatus"))
  = [reply_call "tok" "Server is offline. Code: redis_fail_get"]
  /\ calls (Part000.webhook (a_world false) (store_with "serverURL" "tcp://mc.example.com:25565")
              (one_text "tok" "/mcstatus"))
     = [reply_call "tok" "Server is offline. Code: mc_query_fail"].
Proof.
  split.
  - destruct (status_failures_reply_offline_code (a_world false) store_down
                "tok" "/mcstatus" eq_refl) as (_ & H & _).
    destruct (H RedisError eq_refl) as [H1 _]. exact H1.
  - destruct (status_failures_reply_offline_code (a_world false)
                (store_with "serverURL" "tcp://mc.example.com:25565")
                "tok" "/mcstatus" eq_refl) as (_ & _ & _ & _ & _ & H & _).
    apply (H "tcp://mc.example.com:25565"
             {| hostname := "mc.example.com"; URL_port := "25565" |});
      reflexivity.
Defined.

(** ** The dispatcher *)

Lemma awaited_serve_webhook handleEvent w r body :
  awaited (serve_webhook handleEvent w r body)
  = List.filter defined (handleEvent body).1.
Proof. unfold serve_webhook. by destruct (handleEvent body). Qed.

Lemma calls_serve_webhook handleEvent w r body :
  calls (serve_webhook handleEvent w r body)
  = immediate_calls w (handleEvent body).1
    ++ (run_commands w r (handleEvent body).2).1.
Proof. unfold serve_webhook. by destruct (handleEvent body). Qed.

Lemma uncaught_serve_webhook handleEvent w r body :
  uncaught (serve_webhook handleEvent w r body)
  = (run_commands w r (handleEvent body).2).2.
Proof. unfold serve_webhook. by destruct (handleEvent body). Qed.

(** Every call of a run of commands is a call of one of the commands. *)
Lemma run_commands_calls_in w r commands c :
  c ∈ (run_commands w r commands).1 ->
  exists cmd, cmd ∈ commands /\ c ∈ (run_command w r cmd).1.
Proof.
  induction commands as [|cmd rest IH]; [by intros ?%elem_of_nil|].
  cbn [run_commands]. destruct (run_command w r cmd).2 eqn:Herr.
  - cbn [fst]. intros [Hc|Hc]%elem_of_app.
    + exists cmd. split; [left | done].
    + destruct (IH Hc) as (cmd' & Hin & Hc'). exists cmd'. split; [by right|done].
  - intros Hc. exists cmd. split; [left | done].
Qed.

Lemma Served_eq (a b : Served) :
  awaited a = awaited b -> calls a = calls b -> uncaught a = uncaught b -> a = b.
Proof. destruct a, b; simpl; congruence. Qed.

(** An event for which the mapping function returns [undefined] and issues
    nothing leaves no trace in what the webhook does. *)
Lemma serve_webhook_skip (each : WebhookEvent -> Mapped) w r before ev after :
  each ev = {| returned := None; issued := [] |} ->
  serve_webhook
    (fun body => (returned <$> (each <$> events body),
                  mbind issued (each <$> events body)))
    w r {| events := before ++ ev :: after |}
  = serve_webhook
      (fun body => (returned <$> (each <$> events body),
                    mbind issued (each <$> events body)))
      w r {| events := before ++ after |}.
Proof.
  intros Hev.
  assert (Hres : List.filter defined
                   (returned <$> (each <$> before ++ ev :: after))
                 = List.filter defined (returned <$> (each <$> before ++ after))).
  { rewrite !fmap_app, !fmap_cons, !List.filter_app, Hev. reflexivity. }
  assert (Himm : immediate_calls w (returned <$> (each <$> before ++ ev :: after))
                 = immediate_calls w (returned <$> (each <$> before ++ after))).
  { unfold immediate_calls.
    rewrite !fmap_app, !fmap_cons, !bind_app, bind_cons, Hev. reflexivity. }
  assert (Hcmd : mbind issued (each <$> before ++ ev :: after)
                 = mbind issued (each <$> before ++ after)).
  { rewrite !fmap_app, !fmap_cons, !bind_app, bind_cons, Hev. reflexivity. }
  apply Served_eq.
  - rewrite !awaited_serve_webhook. exact Hres.
  - rewrite !calls_serve_webhook. cbn [fst snd events]. by rewrite Himm, Hcmd.
  - rewrite !uncaught_serve_webhook. cbn [fst snd events]. by rewrite Hcmd.
Qed.

(** Every reply a webhook request leads to answers a text message of the
    batch, in the hostname program ... *)
Lemma MainTs_calls_answer_text w r body c :
  c ∈ calls (MainTs.webhook w r body) ->
  exists t, MessageEvent (call_token c) (TextEventMessage t) ∈ events body.
Proof.
  unfold MainTs.webhook. rewrite calls_serve_webhook.
  unfold MainTs.handleEvent, immediate_calls. cbn [fst snd].
  intros [Hc|Hc]%elem_of_app.
  - apply list_elem_of_bind in Hc as (v & Hc & Hv).
    apply list_elem_of_fmap in Hv as (m & -> & Hm).
    apply list_elem_of_fmap in Hm as (e & -> & He).
    destruct e as [token [t| | | | | |]| | | | | |];
      try (by apply elem_of_nil in Hc).
    simpl in Hc. destruct (extractCommand t); simpl in Hc;
      try (by apply elem_of_nil in Hc);
      apply list_elem_of_singleton in Hc as ->; by exists t.
  - apply run_commands_calls_in in Hc as (cmd & Hcmd & Hc).
    apply list_elem_of_bind in Hcmd as (m & Hcmd & Hm).
    apply list_elem_of_fmap in Hm as (e & -> & He).
    destruct e as [token [t| | | | | |]| | | | | |];
      try (by apply elem_of_nil in Hcmd).
    simpl in Hcmd. destruct (extractCommand t); simpl in Hcmd;
      try (by apply elem_of_nil in Hcmd).
    apply list_elem_of_singleton in Hcmd as ->.
    apply MainTs_run_command_texts in Hc as [<- _]. by exists t.
Qed.

(** ... and in the server-URL program. *)
Lemma Part000_calls_answer_text w r body c :
  c ∈ calls (Part000.webhook w r body) ->
  exists t, MessageEvent (call_token c) (TextEventMessage t) ∈ events body.
Proof.
  unfold Part000.webhook. rewrite calls_serve_webhook.
  unfold Part000.handleEvent, immediate_calls. cbn [fst snd].
  intros [Hc|Hc]%elem_of_app.
  - apply list_elem_of_bind in Hc as (v & Hc & Hv).
    apply list_elem_of_fmap in Hv as (m & -> & Hm).
    apply list_elem_of_fmap in Hm as (e & -> & He).
    destruct e as [token [t| | | | | |]| | | | | |];
      try (by apply elem_of_nil in Hc).
    simpl in Hc. destruct (extractCommand t); simpl in Hc;
      try (by apply elem_of_nil in Hc);
      apply list_elem_of_singleton in Hc as ->; by exists t.
  - apply run_commands_calls_in in Hc as (cmd & Hcmd & Hc).
    apply list_elem_of_bind in Hcmd as (m & Hcmd & Hm).
    apply list_elem_of_fmap in Hm as (e & -> & He).
    destruct e as [token [t| | | | | |]| | | | | |];
      try (by apply elem_of_nil in Hcmd).
    simpl in Hcmd. destruct (extractCommand t); simpl in Hcmd;
      try (by apply elem_of_nil in Hcmd).
    apply list_elem_of_singleton in Hcmd as ->.
    apply Part000_run_command_texts in Hc as [<- _]. by exists t.
Qed.

(** C10: a message event whose message is not a text message (an image, a
    sticker, ...) gets no reply operation at all, exactly as an event that
    is not a message: the mapping function returns [undefined] and issues
    nothing, the webhook behaves as if the event were not in the batch, and
    every reply call answers a text message. Both programs. *)
Theorem non_text_message_gets_no_reply :
  forall (w : World) (r : Redis) (token : string) (m : EventMessage)
         (before after : list WebhookEvent),
    message_type m <> "text" ->
    MainTs.handleEvent_each (MessageEvent token m)
      = {| returned := None; issued := [] |}
    /\ Part000.handleEvent_each w (MessageEvent token m)
       = {| returned := None; issued := [] |}
    /\ MainTs.handleEvent_each (MessageEvent token m)
       = MainTs.handleEvent_each UnfollowEvent
    /\ Part000.handleEvent_each w (MessageEvent token m)
       = Part000.handleEvent_each w UnfollowEvent
    /\ MainTs.webhook w r {| events := before ++ MessageEvent token m :: after |}
       = MainTs.webhook w r {| events := before ++ after |}
    /\ Part000.webhook w r {| events := before ++ MessageEvent token m :: after |}
       = Part000.webhook w r {| events := before ++ after |}
    /\ (forall body c, c ∈ calls (MainTs.webhook w r body) ->
          exists t, MessageEvent (call_token c) (TextEventMessage t) ∈ events body)
    /\ (forall body c, c ∈ calls (Part000.webhook w r body) ->
          exists t, MessageEvent (call_token c) (TextEventMessage t) ∈ events body).
Proof.
  intros w r token m before after Hm.
  assert (H1 : MainTs.handleEvent_each (MessageEvent token m)
               = {| returned := None; issued := [] |})
    by (by destruct m).
  assert (H2 : Part000.handleEvent_each w (MessageEvent token m)
               = {| returned := None; issued := [] |})
    by (by destruct m).
  repeat split; try done.
  - apply (serve_webhook_skip MainTs.handleEvent_each), H1.
  - apply (serve_webhook_skip (Part000.handleEvent_each w)), H2.
  - apply MainTs_calls_answer_text.
  - apply Part000_calls_answer_text.
Qed.

(** C10 at a sticker sent between two text messages. *)
Lemma non_text_message_gets_no_reply_witness :
  MainTs.webhook (a_world true) empty_store
    {| events := [MessageEvent "t1" (TextEventMessage "/help")]
                 ++ MessageEvent "t2" StickerEventMessage
                 :: [MessageEvent "t3" (TextEventMessage "hello")] |}
  = MainTs.webhook (a_world true) empty_store
      {| events := [MessageEvent "t1" (TextEventMessage "/help")]
                   ++ [MessageEvent "t3" (TextEventMessage "hello")] |}.
Proof.
  destruct (non_text_message_gets_no_reply (a_world true) empty_store "t2"
              StickerEventMessage
              [MessageEvent "t1" (TextEventMessage "/help")]
              [MessageEvent "t3" (TextEventMessage "hello")])
    as (_ & _ & _ & _ & H & _).
  - discriminate.
  - exact H.
Defined.

(** What the hostname program hands to [Promise.all] when no text message
    is a STATUS command ... *)
Lemma MainTs_awaited_static l :
  Forall (fun m => extractCommand m.2 <> MCSTATUS) (text_messages l) ->
  List.filter defined (returned <$> (MainTs.handleEvent_each <$> l))
  = (fun m => Some (static_reply m)) <$> text_messages l.
Proof.
  induction l as [|e l IH]; [done|].
  unfold text_messages in *. rewrite !fmap_cons. cbn [omap list_omap].
  destruct e as [token [t| | | | | |]| | | | | |]; simpl; try exact IH.
  intros [Ht Hl]%Forall_cons. simpl in Ht.
  unfold static_reply. simpl.
  destruct (extractCommand t); try done; simpl; by rewrite (IH Hl).
Qed.

(** ... and the server-URL program. *)
Lemma Part000_awaited_static w l :
  Forall (fun m => extractCommand m.2 <> MCSTATUS) (text_messages l) ->
  List.filter defined (returned <$> (Part000.handleEvent_each w <$> l))
  = (fun m => Some (static_reply m)) <$> text_messages l.
Proof.
  induction l as [|e l IH]; [done|].
  unfold text_messages in *. rewrite !fmap_cons. cbn [omap list_omap].
  destruct e as [token [t| | | | | |]| | | | | |]; simpl; try exact IH.
  intros [Ht Hl]%Forall_cons. simpl in Ht.
  unfold static_reply. simpl.
  destruct (extractCommand t); try done; simpl; by rewrite (IH Hl).
Qed.

(** C2, as amended: when no text message of the batch is a STATUS command,
    the dispatcher hands [Promise.all] exactly one reply operation per text
    message, in the order of the events, and none for any other event (an
    event that is not a message, or a message that is not text); so their
    number is the number of text messages. Both programs. *)
Theorem dispatch_one_reply_per_text_message :
  forall (w : World) (r : Redis) (body : WebhookRequestBody),
    Forall (fun m => extractCommand m.2 <> MCSTATUS)
      (text_messages (events body)) ->
    awaited (MainTs.webhook w r body)
      = (fun m => Some (static_reply m)) <$> text_messages (events body)
    /\ awaited (Part000.webhook w r body)
       = (fun m => Some (static_reply m)) <$> text_messages (events body)
    /\ length (awaited (MainTs.webhook w r body))
       = length (text_messages (events body))
    /\ length (awaited (Part000.webhook w r body))
       = length (text_messages (events body)).
Proof.
  intros w r body H.
  unfold MainTs.webhook, Part000.webhook. rewrite !awaited_serve_webhook.
  unfold MainTs.handleEvent, Part000.handleEvent. cbn [fst].
  rewrite (MainTs_awaited_static _ H), (Part000_awaited_static w _ H).
  by rewrite length_fmap.
Qed.

(** C2, as amended, at a batch of a help request, a follow event, an image
    and a greeting. *)
Lemma dispatch_one_reply_per_text_message_witness :
  awaited (MainTs.webhook (a_world true) empty_store
             {| events := [MessageEvent "t1" (TextEventMessage "/help");
                           FollowEvent "t2";
                           MessageEvent "t3" ImageEventMessage;
                           MessageEvent "t4" (TextEventMessage "hello")] |})
  = [Some (linePromiseReply {| replyToken := "t1" |} helpMessage);
     Some (linePromiseReply {| replyToken := "t4" |}
             "Invalid command. Type /help to get some help")].
Proof.
  destruct (dispatch_one_reply_per_text_message (a_world true) empty_store
              {| events := [MessageEvent "t1" (TextEventMessage "/help");
                            FollowEvent "t2";
                            MessageEvent "t3" ImageEventMessage;
                            MessageEvent "t4" (TextEventMessage "hello")] |})
    as (H & _).
  - repeat constructor; discriminate.
  - exact H.
Defined.

(** C2 as stated fails: a batch of one message event, an image, yields no
    reply operation although it holds one message event. *)
Lemma dispatch_image_message_counterexample :
  length (awaited (MainTs.webhook (a_world true) empty_store
                     {| events := [MessageEvent "t1" ImageEventMessage] |}))
  <> length (List.filter is_message_event [MessageEvent "t1" ImageEventMessage])
  /\ length (awaited (Part000.webhook (a_world true) empty_store
                        {| events := [MessageEvent "t1" ImageEventMessage] |}))
     <> length (List.filter is_message_event [MessageEvent "t1" ImageEventMessage]).
Proof. split; discriminate. Qed.

(** C1: the code at a STATUS command. Whatever the world and the store, the
    mapping function returns [undefined] for the event and the dispatcher
    awaits nothing; the reply is made later, from the Redis callback, where
    nothing awaits it. Both programs. *)
Theorem status_reply_is_not_awaited :
  forall (w : World) (r : Redis) (token : string),
    fst (MainTs.handleEvent (one_text token "/mcstatus")) = [None]
    /\ fst (Part000.handleEvent w (one_text token "/mcstatus")) = [None]
    /\ awaited (MainTs.webhook w r (one_text token "/mcstatus")) = []
    /\ awaited (Part000.webhook w r (one_text token "/mcstatus")) = []
    /\ calls (MainTs.webhook (a_world true)
                (store_with "SERVER_HOSTNAME" "mc.example.com")
                (one_text token "/mcstatus"))
       = [reply_call token (MainTs.formatServerResponse a_snapshot)]
    /\ calls (Part000.webhook (a_world true)
                (store_with "serverURL" "tcp://mc.example.com:25565")
                (one_text token "/mcstatus"))
       = [reply_call token
            (Part000.formatServerResponse a_snapshot (Some "25565"))].
Proof. intros w r token. repeat split. Qed.

(** The hostname program's callback never throws: whatever the store
    answers, it returns a promise. *)
Lemma MainTs_callback_never_throws event err reply :
  exists p, MainTs.MCSTATUS_callback event err reply = Returns p.
Proof.
  unfold MainTs.MCSTATUS_callback. destruct err; [eauto|].
  destruct reply; eauto.
Qed.

(** In the server-URL program a stored value the [URL] constructor refuses
    makes the callback throw before any reply is made. *)
Lemma Part000_unparseable_throws w r token t v :
  extractCommand t = MCSTATUS ->
  fault r = None -> data r !! "serverURL" = Some v -> new_URL w v = None ->
  calls (Part000.webhook w r (one_text token t)) = []
  /\ uncaught (Part000.webhook w r (one_text token t)) = [TypeError_InvalidURL].
Proof.
  intros Hcmd Hf Hd Hu. rewrite (Part000_status_calls w r token t Hcmd).
  cbn [calls uncaught]. unfold run_command, redis_get. rewrite Hf, Hd.
  simpl. by rewrite Hu.
Qed.

(** C5: the code at a stored value that is not a network address. In the
    server-URL program the STATUS command is left without any reply and a
    [TypeError] escapes the callback; the hostname program answers the same
    value with the code mc_query_fail. *)
Theorem unparseable_address_crashes_status :
  calls (Part000.webhook (a_world true) (store_with "serverURL" "not a url")
           (one_text "tok" "/mcstatus")) = []
  /\ uncaught (Part000.webhook (a_world true) (store_with "serverURL" "not a url")
                 (one_text "tok" "/mcstatus")) = [TypeError_InvalidURL]
  /\ calls (MainTs.webhook (a_world false)
              (store_with "SERVER_HOSTNAME" "not a url")
              (one_text "tok" "/mcstatus"))
     = [reply_call "tok" "Server is offline. Code: mc_query_fail"]
  /\ uncaught (MainTs.webhook (a_world false)
                 (store_with "SERVER_HOSTNAME" "not a url")
                 (one_text "tok" "/mcstatus")) = [].
Proof. repeat split. Qed.

(** ** The status formatter *)

Lemma begins_nil s : begins "" s.
Proof. by exists s. Qed.

Lemma begins_char c x s : begins x s -> begins (String c x) (String c s).
Proof. intros [after ->]. by exists after. Qed.

Lemma append_cons ch (a b : string) : String ch a +:+ b = String ch (a +:+ b).
Proof. reflexivity. Qed.

Lemma append_assoc (a b c : string) : (a +:+ b) +:+ c = a +:+ (b +:+ c).
Proof.
  induction a as [|ch a IH]; [done|]. by rewrite !append_cons, IH.
Qed.

Lemma begins_app h x s : begins x s -> begins (h +:+ x) (h +:+ s).
Proof. intros [after ->]. exists after. by rewrite append_assoc. Qed.

Lemma contains_begins x s : begins x s -> contains x s.
Proof. intros [after ->]. by exists "", after. Qed.

Lemma contains_skip_char c x s : contains x s -> contains x (String c s).
Proof. intros (before & after & ->). by exists (String c before), after. Qed.

Lemma contains_skip_app h x s : contains x s -> contains x (h +:+ s).
Proof.
  intros (before & after & ->). exists (h +:+ before), after.
  by rewrite append_assoc.
Qed.

(** Finds a piece of text in a string built by concatenation. *)
Ltac find_begins :=
  solve [repeat first [apply begins_nil | apply begins_char | apply begins_app]].

Ltac find_contains :=
  first [ apply contains_begins; find_begins
        | apply contains_skip_char; find_contains
        | apply contains_skip_app; find_contains ].

Lemma Array_toString_concat (a : list string) :
  Array_toString a = String.concat "," a.
Proof.
  induction a as [|x [|y rest] IH]; try done.
  change (x +:+ "," +:+ Array_toString (y :: rest)
          = x +:+ "," +:+ String.concat "," (y :: rest)).
  by rewrite IH.
Qed.

Lemma players_field_spec srvResp :
  players_field srvResp = names_or_none (samplePlayers srvResp).
Proof.
  unfold players_field, names_or_none.
  destruct (samplePlayers srvResp) as [[|p l]|]; try done.
  rewrite Array_toString_concat.
  by destruct (Z.ltb_spec (Z.of_nat (length (p :: l))) 1); [simpl in *; lia|].
Qed.

(** C6, as amended: for every snapshot the formatter renders the address,
    the version, the "online/max" player count, the comma-joined player
    names or the token "none" when the list is empty or absent, and the
    description. The server-URL program also renders a port: the port
    argument its caller passes (the port of the registered URL), else the
    default 25565. The snapshot's own port is never rendered: the text does
    not depend on it, and the hostname program renders no port. The
    formatter is a total function. *)
Theorem formatServerResponse_renders :
  forall (srvResp : StatusResponse) (ngrokPort : option string),
    (contains ("Server address: " +:+ host srvResp +:+ LF)
       (MainTs.formatServerResponse srvResp)
     /\ contains ("Server version: " +:+ version srvResp +:+ LF)
          (MainTs.formatServerResponse srvResp)
     /\ contains ("Online players: " +:+ Number_toString (onlinePlayers srvResp)
                    +:+ "/" +:+ Number_toString (maxPlayers srvResp) +:+ LF)
          (MainTs.formatServerResponse srvResp)
     /\ contains ("Players: " +:+ names_or_none (samplePlayers srvResp) +:+ LF)
          (MainTs.formatServerResponse srvResp)
     /\ contains ("Server Description: " +:+ description srvResp +:+ " ")
          (MainTs.formatServerResponse srvResp))
    /\ (contains ("Server address: " +:+ host srvResp +:+ LF)
          (Part000.formatServerResponse srvResp ngrokPort)
        /\ contains ("Server port: " +:+ default "25565" ngrokPort +:+ LF)
             (Part000.formatServerResponse srvResp ngrokPort)
        /\ contains ("Server version: " +:+ version srvResp +:+ LF)
             (Part000.formatServerResponse srvResp ngrokPort)
        /\ contains ("Online players: "
                       +:+ Number_toString (onlinePlayers srvResp)
                       +:+ "/" +:+ Number_toString (maxPlayers srvResp) +:+ LF)
             (Part000.formatServerResponse srvResp ngrokPort)
        /\ contains ("Players: " +:+ names_or_none (samplePlayers srvResp) +:+ LF)
             (Part000.formatServerResponse srvResp ngrokPort)
        /\ contains ("Server Description: " +:+ description srvResp +:+ " ")
             (Part000.formatServerResponse srvResp ngrokPort))
    /\ (forall p : N,
          MainTs.formatServerResponse (with_port p srvResp)
          = MainTs.formatServerResponse srvResp
          /\ Part000.formatServerResponse (with_port p srvResp) ngrokPort
             = Part000.formatServerResponse srvResp ngrokPort)
    /\ names_or_none (Some [{| name := "a" |}; {| name := "b" |}]) = "a,b"
    /\ names_or_none (Some []) = "none"
    /\ names_or_none None = "none".
Proof.
  intros srvResp ngrokPort.
  unfold MainTs.formatServerResponse, Part000.formatServerResponse.
  rewrite players_field_spec. unfold LF.
  split; [|split; [|split]].
  - repeat split; rewrite ?append_cons; find_contains.
  - destruct ngrokPort; repeat split; cbn [default from_option id];
      rewrite ?append_cons; find_contains.
  - intros p. split; by rewrite ?players_field_spec.
  - by repeat split.
Qed.

(** C6 as stated fails: a snapshot whose own port is 19132 is rendered
    without any port by the hostname program, and with the default 25565
    by the server-URL program when no port argument is passed. *)
Lemma formatServerResponse_port_counterexample :
  port a_snapshot = 19132%N
  /\ ~ contains "19132" (MainTs.formatServerResponse a_snapshot)
  /\ ~ contains "25565" (MainTs.formatServerResponse a_snapshot)
  /\ ~ contains "19132" (Part000.formatServerResponse a_snapshot None)
  /\ contains "Server port: 25565" (Part000.formatServerResponse a_snapshot None).
Proof.
  split; [done|].
  rewrite <- !indexOf_found.
  repeat split; try (intros H; apply H; vm_compute; reflexivity).
  vm_compute. discriminate.
Qed.

(** ** The registration routes *)

Lemma authMiddleware_passes env req next s a :
  headers req !! "authorization" = Some a -> env !! "AUTH_KEY" = Some a ->
  authMiddleware env req next s = next s.
Proof.
  intros Hh He. unfold authMiddleware. rewrite Hh, He.
  by rewrite bool_decide_eq_true_2.
Qed.

Lemma authMiddleware_rejects env req next s :
  headers req !! "authorization" = None
  \/ headers req !! "authorization" <> env !! "AUTH_KEY" ->
  statusCode (res (authMiddleware env req next s)) = 400
  /\ redis (authMiddleware env req next s) = redis s
  /\ exists reason, sent (res (authMiddleware env req next s)) = Some (Text reason).
Proof.
  intros H. unfold authMiddleware.
  destruct (headers req !! "authorization") as [a|] eqn:Ha.
  - destruct H as [H|H]; [done|].
    rewrite bool_decide_eq_false_2 by done. simpl. eauto.
  - simpl. eauto.
Qed.

Lemma report_errors_sends errors next s :
  errors <> [] ->
  report_errors errors next s = on_res (res_send (Json errors)) s.
Proof. intros H. unfold report_errors. by destruct errors. Qed.











(** The validation handler sends the error list without setting a status:
    the response keeps the status it had. *)
Lemma validation_failure_keeps_status env w req s a :
  headers req !! "authorization" = Some a -> env !! "AUTH_KEY" = Some a ->
  (run_chain w MainTs.serverHostnameValidation_chain req <> [] ->
   statusCode (res (MainTs.setServerHostname env w req s)) = statusCode (res s))
  /\ (run_chain w Part000.serverURLValidation_chain req <> [] ->
      statusCode (res (Part000.serverURL env w req s)) = statusCode (res s)).
Proof.
  intros Hh He. split; intros Herr.
  - unfold MainTs.setServerHostname, MainTs.serverHostnameValidation.
    rewrite (authMiddleware_passes _ _ _ _ a Hh He).
    by rewrite (report_errors_sends _ _ _ Herr).
  - unfold Part000.serverURL, Part000.serverURLValidation.
    rewrite (authMiddleware_passes _ _ _ _ a Hh He).
    by rewrite (report_errors_sends _ _ _ Herr).
Qed.

(** C8: a registration request whose authorization header is missing or
    differs from the configured secret is answered with status 400 and a
    reason, and the store is left as it was. Both programs. *)
Theorem registration_auth_failure :
  forall (env : gmap string string) (w : World) (req : Request) (s : Server),
    headers req !! "authorization" = None
    \/ headers req !! "authorization" <> env !! "AUTH_KEY" ->
    (is_400_class (statusCode (res (MainTs.setServerHostname env w req s)))
     /\ statusCode (res (MainTs.setServerHostname env w req s)) = 400
     /\ redis (MainTs.setServerHostname env w req s) = redis s
     /\ redis_get (redis (MainTs.setServerHostname env w req s)) "SERVER_HOSTNAME"
        = redis_get (redis s) "SERVER_HOSTNAME")
    /\ (is_400_class (statusCode (res (Part000.serverURL env w req s)))
        /\ statusCode (res (Part000.serverURL env w req s)) = 400
        /\ redis (Part000.serverURL env w req s) = redis s
        /\ redis_get (redis (Part000.serverURL env w req s)) "serverURL"
           = redis_get (redis s) "serverURL").
Proof.
  intros env w req s H. unfold MainTs.setServerHostname, Part000.serverURL.
  split.
  - destruct (authMiddleware_rejects env req
                (MainTs.serverHostnameValidation w req
                   (fun s =>
                      let '(redis', (err, reply)) :=
                        redis_set (redis s) "SERVER_HOSTNAME"
                          (body req !! "serverHostname") in
                      set_callback err reply
                        {| res := res s; redis := redis'; console := console s |}))
                s H) as (Hc & Hr & _).
    rewrite Hc, Hr. unfold is_400_class. repeat split; lia.
  - destruct (authMiddleware_rejects env req
                (Part000.serverURLValidation w req
                   (fun s =>
                      let '(redis', (err, reply)) :=
                        redis_set (redis s) "serverURL"
                          (body req !! "serverURL") in
                      set_callback err reply
                        {| res := res s; redis := redis'; console := console s |}))
                s H) as (Hc & Hr & _).
    rewrite Hc, Hr. unfold is_400_class. repeat split; lia.
Qed.

(** C8 at a request without the header and at a request with a wrong
    secret. *)
Lemma registration_auth_failure_witness :
  redis (MainTs.setServerHostname an_env (a_world true)
           (a_request None "serverHostname" (Some "mc.example.com"))
           (a_server (store_with "SERVER_HOSTNAME" "old.example.com")))
  = store_with "SERVER_HOSTNAME" "old.example.com"
  /\ statusCode (res (Part000.serverURL an_env (a_world true)
                        (a_request (Some "guess") "serverURL"
                           (Some "tcp://mc.example.com:25565"))
                        (a_server empty_store))) = 400.
Proof.
  split.
  - destruct (registration_auth_failure an_env (a_world true)
                (a_request None "serverHostname" (Some "mc.example.com"))
                (a_server (store_with "SERVER_HOSTNAME" "old.example.com")))
      as ((_ & _ & H & _) & _).
    + left. reflexivity.
    + exact H.
  - destruct (registration_auth_failure an_env (a_world true)
                (a_request (Some "guess") "serverURL"
                   (Some "tcp://mc.example.com:25565"))
                (a_server empty_store))
      as (_ & (_ & H & _)).
    + right. vm_compute. discriminate.
    + exact H.
Defined.

(** The error branch of the callback of [set] leaves the status code as it
    was, whatever the error. *)
Lemma set_callback_error_keeps_status e reply s :
  statusCode (res (set_callback (Some e) reply s)) = statusCode (res s)
  /\ sent (res (set_callback (Some e) reply s)) = Some (Text "Server Error").
Proof. done. Qed.

(** C9: the code at an authorized, valid request whose store write fails.
    The callback calls [res.header(500)], which sets no status: the
    response goes out with the status 200 of a fresh response and the body
    "Server Error". Both programs. *)
Theorem store_write_failure_keeps_status_200 :
  statusCode (res (MainTs.setServerHostname an_env (a_world true)
                     (a_request (Some "s3cret") "serverHostname"
                        (Some "mc.example.com"))
                     (a_server store_down))) = 200
  /\ sent (res (MainTs.setServerHostname an_env (a_world true)
                  (a_request (Some "s3cret") "serverHostname"
                     (Some "mc.example.com"))
                  (a_server store_down))) = Some (Text "Server Error")
  /\ statusCode (res (Part000.serverURL an_env (a_world true)
                        (a_request (Some "s3cret") "serverURL"
                           (Some "tcp://mc.example.com:25565"))
                        (a_server store_down))) = 200
  /\ sent (res (Part000.serverURL an_env (a_world true)
                  (a_request (Some "s3cret") "serverURL"
                     (Some "tcp://mc.example.com:25565"))
                  (a_server store_down))) = Some (Text "Server Error").
Proof. repeat split. Qed.

(** When the status query succeeds but the LINE API refuses the formatted
    reply, the [catch] handler also runs: a second reply call is made for
    the same event. *)
Lemma status_reply_repeated_when_refused :
  forall (w : World) (token : string),
    (forall t m, line_accepts w t m = false) ->
    mc_query w "mc.example.com" None = Some a_snapshot ->
    calls (MainTs.webhook w (store_with "SERVER_HOSTNAME" "mc.example.com")
             (one_text token "/mcstatus"))
    = [reply_call token (MainTs.formatServerResponse a_snapshot);
       reply_call token (offline MC_QUERY_FAIL)].
Proof.
  intros w token Hline Hq.
  rewrite (MainTs_status_calls w _ token "/mcstatus" eq_refl). cbn [calls].
  unfold run_command, redis_get, store_with. cbn [fault data].
  rewrite lookup_singleton_eq. simpl. rewrite Hq. simpl. by rewrite !Hline.
Qed.

(** ** More on the registration routes *)

Lemma MainTs_route_accepts env w req s a :
  headers req !! "authorization" = Some a -> env !! "AUTH_KEY" = Some a ->
  run_chain w MainTs.serverHostnameValidation_chain req = [] ->
  MainTs.setServerHostname env w req s
  = set_callback
      (redis_set (redis s) "SERVER_HOSTNAME" (body req !! "serverHostname")).2.1
      (redis_set (redis s) "SERVER_HOSTNAME" (body req !! "serverHostname")).2.2
      {| res := res s;
         redis := (redis_set (redis s) "SERVER_HOSTNAME"
                     (body req !! "serverHostname")).1;
         console := console s |}.
Proof.
  intros Hh He Hok.
  unfold MainTs.setServerHostname, MainTs.serverHostnameValidation.
  rewrite (authMiddleware_passes _ _ _ _ a Hh He).
  rewrite Hok. change (report_errors [] ?n ?x) with (n x).
  cbv beta.
  by destruct (redis_set (redis s) "SERVER_HOSTNAME" _) as [? [? ?]].
Qed.

Lemma Part000_route_accepts env w req s a :
  headers req !! "authorization" = Some a -> env !! "AUTH_KEY" = Some a ->
  run_chain w Part000.serverURLValidation_chain req = [] ->
  Part000.serverURL env w req s
  = set_callback
      (redis_set (redis s) "serverURL" (body req !! "serverURL")).2.1
      (redis_set (redis s) "serverURL" (body req !! "serverURL")).2.2
      {| res := res s;
         redis := (redis_set (redis s) "serverURL" (body req !! "serverURL")).1;
         console := console s |}.
Proof.
  intros Hh He Hok.
  unfold Part000.serverURL, Part000.serverURLValidation.
  rewrite (authMiddleware_passes _ _ _ _ a Hh He).
  rewrite Hok. change (report_errors [] ?n ?x) with (n x).
  cbv beta.
  by destruct (redis_set (redis s) "serverURL" _) as [? [? ?]].
Qed.

Lemma redis_set_up r key v :
  fault r = None ->
  redis_set r key (Some v)
  = ({| data := <[key := v]> (data r); fault := None |}, (None, Some "OK")).
Proof. intros H. unfold redis_set. by rewrite H. Qed.

(** A write changes nothing but the value under its key. *)
Lemma redis_set_frame r key value :
  fault (redis_set r key value).1 = fault r
  /\ (forall k, k <> key ->
        data (redis_set r key value).1 !! k = data r !! k)
  /\ ((redis_set r key value).1 = r
      \/ exists v, value = Some v /\ fault r = None
                   /\ data (redis_set r key value).1 = <[key := v]> (data r)).
Proof.
  unfold redis_set. destruct (fault r) eqn:Hf, value as [v|]; simpl;
    repeat split; auto.
  - intros k Hk. by rewrite lookup_insert_ne.
  - right. by exists v.
Qed.

Lemma redis_of_set_callback err reply s :
  redis (set_callback err reply s) = redis s.
Proof. by destruct err. Qed.

(** X1: an authorized registration that passes validation and carries the
    address in its body, on a store that is up, writes exactly that address
    under the program's key, answers with the store's acknowledgement "OK"
    under an unchanged status, and a read of the key then gives the address
    back. Both programs. *)
Theorem registration_success_stores_address :
  forall (env : gmap string string) (w : World) (req : Request) (s : Server)
         (a v : string),
    headers req !! "authorization" = Some a -> env !! "AUTH_KEY" = Some a ->
    fault (redis s) = None ->
    (run_chain w MainTs.serverHostnameValidation_chain req = [] ->
     body req !! "serverHostname" = Some v ->
     data (redis (MainTs.setServerHostname env w req s))
     = <["SERVER_HOSTNAME" := v]> (data (redis s))
     /\ redis_get (redis (MainTs.setServerHostname env w req s)) "SERVER_HOSTNAME"
        = (None, Some v)
     /\ sent (res (MainTs.setServerHostname env w req s)) = Some (Text "OK")
     /\ statusCode (res (MainTs.setServerHostname env w req s))
        = statusCode (res s))
    /\ (run_chain w Part000.serverURLValidation_chain req = [] ->
        body req !! "serverURL" = Some v ->
        data (redis (Part000.serverURL env w req s))
        = <["serverURL" := v]> (data (redis s))
        /\ redis_get (redis (Part000.serverURL env w req s)) "serverURL"
           = (None, Some v)
        /\ sent (res (Part000.serverURL env w req s)) = Some (Text "OK")
        /\ statusCode (res (Part000.serverURL env w req s))
           = statusCode (res s)).
Proof.
  intros env w req s a v Hh He Hf. split.
  - intros Hok Hb. rewrite (MainTs_route_accepts env w req s a Hh He Hok), Hb.
    rewrite (redis_set_up _ _ _ Hf). unfold redis_get. simpl.
    by rewrite lookup_insert_eq.
  - intros Hok Hb. rewrite (Part000_route_accepts env w req s a Hh He Hok), Hb.
    rewrite (redis_set_up _ _ _ Hf). unfold redis_get. simpl.
    by rewrite lookup_insert_eq.
Qed.

(** X1 at the registration of "mc.example.com" on an empty store. *)
Lemma registration_success_stores_address_witness :
  redis_get (redis (MainTs.setServerHostname an_env (a_world true)
                      (a_request (Some "s3cret") "serverHostname"
                         (Some "mc.example.com"))
                      (a_server empty_store))) "SERVER_HOSTNAME"
  = (None, Some "mc.example.com").
Proof.
  destruct (registration_success_stores_address an_env (a_world true)
              (a_request (Some "s3cret") "serverHostname" (Some "mc.example.com"))
              (a_server empty_store) "s3cret" "mc.example.com"
              eq_refl eq_refl eq_refl) as [H _].
  destruct H as (_ & H & _).
  - vm_compute. reflexivity.
  - reflexivity.
  - exact H.
Defined.

(** X2: of two registrations in a row that both pass validation and carry
    their address in the body, the later one wins: the store ends as if
    only the second address had been registered. Both programs. *)
Theorem registration_last_writer_wins :
  forall (env : gmap string string) (w : World) (req1 req2 : Request)
         (s : Server) (a v1 v2 : string),
    headers req1 !! "authorization" = Some a ->
    headers req2 !! "authorization" = Some a ->
    env !! "AUTH_KEY" = Some a ->
    fault (redis s) = None ->
    (run_chain w MainTs.serverHostnameValidation_chain req1 = [] ->
     run_chain w MainTs.serverHostnameValidation_chain req2 = [] ->
     body req1 !! "serverHostname" = Some v1 ->
     body req2 !! "serverHostname" = Some v2 ->
     redis (MainTs.setServerHostname env w req2
              (next_request (MainTs.setServerHostname env w req1 s)))
     = redis (MainTs.setServerHostname env w req2 s))
    /\ (run_chain w Part000.serverURLValidation_chain req1 = [] ->
        run_chain w Part000.serverURLValidation_chain req2 = [] ->
        body req1 !! "serverURL" = Some v1 ->
        body req2 !! "serverURL" = Some v2 ->
        redis (Part000.serverURL env w req2
                 (next_request (Part000.serverURL env w req1 s)))
        = redis (Part000.serverURL env w req2 s)).
Proof.
  intros env w req1 req2 s a v1 v2 Hh1 Hh2 He Hf. split.
  - intros Hok1 Hok2 Hb1 Hb2.
    rewrite (MainTs_route_accepts env w req2 _ a Hh2 He Hok2).
    rewrite (MainTs_route_accepts env w req2 s a Hh2 He Hok2).
    rewrite (MainTs_route_accepts env w req1 s a Hh1 He Hok1).
    rewrite Hb1, Hb2.
    rewrite !redis_of_set_callback. cbn [redis next_request].
    rewrite redis_of_set_callback. cbn [redis].
    rewrite !(redis_set_up (redis s) _ _ Hf). cbn [fst].
    rewrite redis_set_up by done. cbn [fst data].
    by rewrite insert_insert_eq.
  - intros Hok1 Hok2 Hb1 Hb2.
    rewrite (Part000_route_accepts env w req2 _ a Hh2 He Hok2).
    rewrite (Part000_route_accepts env w req2 s a Hh2 He Hok2).
    rewrite (Part000_route_accepts env w req1 s a Hh1 He Hok1).
    rewrite Hb1, Hb2.
    rewrite !redis_of_set_callback. cbn [redis next_request].
    rewrite redis_of_set_callback. cbn [redis].
    rewrite !(redis_set_up (redis s) _ _ Hf). cbn [fst].
    rewrite redis_set_up by done. cbn [fst data].
    by rewrite insert_insert_eq.
Qed.

(** X2 at "old.example.com" followed by "new.example.com". *)
Lemma registration_last_writer_wins_witness :
  redis (MainTs.setServerHostname an_env (a_world true)
           (a_request (Some "s3cret") "serverHostname" (Some "new.example.com"))
           (next_request
              (MainTs.setServerHostname an_env (a_world true)
                 (a_request (Some "s3cret") "serverHostname"
                    (Some "old.example.com"))
                 (a_server empty_store))))
  = redis (MainTs.setServerHostname an_env (a_world true)
             (a_request (Some "s3cret") "serverHostname" (Some "new.example.com"))
             (a_server empty_store)).
Proof.
  destruct (registration_last_writer_wins an_env (a_world true)
              (a_request (Some "s3cret") "serverHostname" (Some "old.example.com"))
              (a_request (Some "s3cret") "serverHostname" (Some "new.example.com"))
              (a_server empty_store) "s3cret" "old.example.com" "new.example.com"
              eq_refl eq_refl eq_refl eq_refl) as [H _].
  apply H.
  - vm_compute. reflexivity.
  - vm_compute. reflexivity.
  - reflexivity.
  - reflexivity.
Defined.

Lemma authMiddleware_cases env req next s :
  redis (authMiddleware env req next s) = redis s
  \/ authMiddleware env req next s = next s.
Proof.
  unfold authMiddleware. destruct (headers req !! "authorization"); [|by left].
  destruct (negb _); [by left | by right].
Qed.

Lemma report_errors_cases errors next s :
  redis (report_errors errors next s) = redis s
  \/ (errors = [] /\ report_errors errors next s = next s).
Proof. destruct errors; [by right | by left]. Qed.

(** X3: whatever the request and its outcome, a registration route never
    touches a key other than its own and never changes the state of the
    connection; the store is left as it was, or it differs by the submitted
    address under the program's key. Both programs. *)
Theorem registration_touches_only_its_key :
  forall (env : gmap string string) (w : World) (req : Request) (s : Server),
    (fault (redis (MainTs.setServerHostname env w req s)) = fault (redis s)
     /\ (forall k, k <> "SERVER_HOSTNAME" ->
           data (redis (MainTs.setServerHostname env w req s)) !! k
           = data (redis s) !! k)
     /\ (redis (MainTs.setServerHostname env w req s) = redis s
         \/ exists v, body req !! "serverHostname" = Some v
                      /\ data (redis (MainTs.setServerHostname env w req s))
                         = <["SERVER_HOSTNAME" := v]> (data (redis s))))
    /\ (fault (redis (Part000.serverURL env w req s)) = fault (redis s)
        /\ (forall k, k <> "serverURL" ->
              data (redis (Part000.serverURL env w req s)) !! k
              = data (redis s) !! k)
        /\ (redis (Part000.serverURL env w req s) = redis s
            \/ exists v, body req !! "serverURL" = Some v
                         /\ data (redis (Part000.serverURL env w req s))
                            = <["serverURL" := v]> (data (redis s)))).
Proof.
  intros env w req s. split.
  - unfold MainTs.setServerHostname.
    destruct (authMiddleware_cases env req
                (MainTs.serverHostnameValidation w req
                   (fun s =>
                      let '(redis', (err, reply)) :=
                        redis_set (redis s) "SERVER_HOSTNAME"
                          (body req !! "serverHostname") in
                      set_callback err reply
                        {| res := res s; redis := redis'; console := console s |}))
                s) as [-> | ->]; [by auto|].
    unfold MainTs.serverHostnameValidation.
    destruct (report_errors_cases
                (run_chain w MainTs.serverHostnameValidation_chain req)
                (fun s =>
                   let '(redis', (err, reply)) :=
                     redis_set (redis s) "SERVER_HOSTNAME"
                       (body req !! "serverHostname") in
                   set_callback err reply
                     {| res := res s; redis := redis'; console := console s |})
                s) as [-> | [_ ->]]; [by auto|].
    destruct (redis_set_frame (redis s) "SERVER_HOSTNAME"
                (body req !! "serverHostname")) as (Hf & Hk & Hd).
    destruct (redis_set (redis s) "SERVER_HOSTNAME" (body req !! "serverHostname"))
      as [r' [err reply]].
    rewrite redis_of_set_callback. cbn [redis fst] in *.
    repeat split; [done | done |].
    destruct Hd as [Hd | (v & Hv & _ & Hd)]; [by left | right; eauto].
  - unfold Part000.serverURL.
    destruct (authMiddleware_cases env req
                (Part000.serverURLValidation w req
                   (fun s =>
                      let '(redis', (err, reply)) :=
                        redis_set (redis s) "serverURL"
                          (body req !! "serverURL") in
                      set_callback err reply
                        {| res := res s; redis := redis'; console := console s |}))
                s) as [-> | ->]; [by auto|].
    unfold Part000.serverURLValidation.
    destruct (report_errors_cases
                (run_chain w Part000.serverURLValidation_chain req)
                (fun s =>
                   let '(redis', (err, reply)) :=
                     redis_set (redis s) "serverURL" (body req !! "serverURL") in
                   set_callback err reply
                     {| res := res s; redis := redis'; console := console s |})
                s) as [-> | [_ ->]]; [by auto|].
    destruct (redis_set_frame (redis s) "serverURL" (body req !! "serverURL"))
      as (Hf & Hk & Hd).
    destruct (redis_set (redis s) "serverURL" (body req !! "serverURL"))
      as [r' [err reply]].
    rewrite redis_of_set_callback. cbn [redis fst] in *.
    repeat split; [done | done |].
    destruct Hd as [Hd | (v & Hv & _ & Hd)]; [by left | right; eauto].
Qed.

(** X4: when the environment holds no AUTH_KEY the registration routes are
    closed: every request, with or without an authorization header, is
    answered with status 400 and leaves the store as it was. *)
Theorem registration_closed_without_key :
  forall (env : gmap string string) (w : World) (req : Request) (s : Server),
    env !! "AUTH_KEY" = None ->
    (statusCode (res (MainTs.setServerHostname env w req s)) = 400
     /\ redis (MainTs.setServerHostname env w req s) = redis s)
    /\ (statusCode (res (Part000.serverURL env w req s)) = 400
        /\ redis (Part000.serverURL env w req s) = redis s).
Proof.
  intros env w req s He.
  assert (H : headers req !! "authorization" = None
              \/ headers req !! "authorization" <> env !! "AUTH_KEY").
  { rewrite He. destruct (headers req !! "authorization"); [by right | by left]. }
  unfold MainTs.setServerHostname, Part000.serverURL. split.
  - destruct (authMiddleware_rejects env req
                (MainTs.serverHostnameValidation w req
                   (fun s =>
                      let '(redis', (err, reply)) :=
                        redis_set (redis s) "SERVER_HOSTNAME"
                          (body req !! "serverHostname") in
                      set_callback err reply
                        {| res := res s; redis := redis'; console := console s |}))
                s H) as (Hc & Hr & _).
    by rewrite Hc, Hr.
  - destruct (authMiddleware_rejects env req
                (Part000.serverURLValidation w req
                   (fun s =>
                      let '(redis', (err, reply)) :=
                        redis_set (redis s) "serverURL" (body req !! "serverURL") in
                      set_callback err reply
                        {| res := res s; redis := redis'; console := console s |}))
                s H) as (Hc & Hr & _).
    by rewrite Hc, Hr.
Qed.

(** X4 at an empty environment and a request carrying the would-be
    secret. *)
Lemma registration_closed_without_key_witness :
  statusCode (res (MainTs.setServerHostname (∅ : gmap string string)
                     (a_world true)
                     (a_request (Some "s3cret") "serverHostname"
                        (Some "mc.example.com"))
                     (a_server empty_store))) = 400.
Proof.
  destruct (registration_closed_without_key (∅ : gmap string string)
              (a_world true)
              (a_request (Some "s3cret") "serverHostname" (Some "mc.example.com"))
              (a_server empty_store)) as [[H _] _].
  - vm_compute. reflexivity.
  - exact H.
Defined.



(** ** More on the webhook *)

Lemma MainTs_each e :
  MainTs.handleEvent_each e = each_with "SERVER_HOSTNAME" MainTs.MCSTATUS_callback e.
Proof. by destruct e as [token [t| | | | | |]| | | | | |]. Qed.

Lemma Part000_each w e :
  Part000.handleEvent_each w e
  = each_with "serverURL" (Part000.MCSTATUS_callback w) e.
Proof. by destruct e as [token [t| | | | | |]| | | | | |]. Qed.



Lemma static_messages_cons e l :
  static_messages (e :: l)
  = match e with
    | MessageEvent token (TextEventMessage t) =>
        if is_status (token, t) then static_messages l
        else (token, t) :: static_messages l
    | _ => static_messages l
    end.
Proof.
  destruct e as [token [t| | | | | |]| | | | | |]; try done.
  unfold static_messages, text_messages. cbn [omap list_omap List.filter].
  by destruct (is_status (token, t)).
Qed.

Lemma status_messages_cons e l :
  status_messages (e :: l)
  = match e with
    | MessageEvent token (TextEventMessage t) =>
        if is_status (token, t) then (token, t) :: status_messages l
        else status_messages l
    | _ => status_messages l
    end.
Proof. by destruct e as [token [t| | | | | |]| | | | | |]. Qed.

Section Dispatch.

Variable key : string.
Variable callback : ReplyableEvent -> option Error -> option string ->
                    Completion (Promise MessageAPIResponseBase).
Variables (w : World) (r : Redis).

Local Abbreviation each := (each_with key callback).


Lemma immediate_static l :
  immediate_calls w (returned <$> (each <$> l))
  = (fun m => reply_call m.1 (static_text m.2)) <$> static_messages l.
Proof.
  induction l as [|e l IH]; [done|].
  rewrite !fmap_cons, static_messages_cons.
  unfold immediate_calls in *. rewrite bind_cons, IH.
  destruct e as [token [t| | | | | |]| | | | | |]; try done.
  unfold is_status. cbn [fst snd each_with].
  destruct (extractCommand t) eqn:Hc; cbn [returned negb];
    rewrite ?fmap_cons; try done;
    unfold static_text; cbn [fst snd]; by rewrite Hc.
Qed.

Lemma issued_status l :
  mbind issued (each <$> l)
  = (fun m => GET key (callback {| replyToken := m.1 |})) <$> status_messages l.
Proof.
  induction l as [|e l IH]; [done|].
  rewrite fmap_cons, bind_cons, IH, status_messages_cons.
  destruct e as [token [t| | | | | |]| | | | | |]; try done.
  unfold is_status. cbn [fst snd each_with].
  by destruct (extractCommand t).
Qed.


Lemma boot_form body :
  boot (handle_with each) w body
  = {| queue := (fun m => GET key (callback {| replyToken := m.1 |}))
                  <$> status_messages (events body);
       flying := [];
       log := (fun m => reply_call m.1 (static_text m.2))
                <$> static_messages (events body);
       ended := None |}.
Proof.
  unfold boot, handle_with. cbn [fst snd].
  by rewrite immediate_static, issued_status.
Qed.

End Dispatch.

Lemma MainTs_handle body :
  MainTs.handleEvent body
  = handle_with (each_with "SERVER_HOSTNAME" MainTs.MCSTATUS_callback) body.
Proof.
  unfold MainTs.handleEvent, handle_with. cbv zeta.
  by rewrite (list_fmap_ext _ _ _ (fun _ e _ => MainTs_each e)).
Qed.

Lemma Part000_handle w body :
  Part000.handleEvent w body
  = handle_with (each_with "serverURL" (Part000.MCSTATUS_callback w)) body.
Proof.
  unfold Part000.handleEvent, handle_with. cbv zeta.
  by rewrite (list_fmap_ext _ _ _ (fun _ e _ => Part000_each w e)).
Qed.

Lemma text_message_listed token t l :
  MessageEvent token (TextEventMessage t) ∈ l -> (token, t) ∈ text_messages l.
Proof.
  intros H. apply list_elem_of_omap.
  by exists (MessageEvent token (TextEventMessage t)).
Qed.

Lemma text_message_sorted m l :
  m ∈ text_messages l ->
  (is_status m = false /\ m ∈ static_messages l)
  \/ (is_status m = true /\ m ∈ status_messages l).
Proof.
  intros H. unfold static_messages, status_messages.
  destruct (is_status m) eqn:Hm; [right | left]; split; try done;
    apply list_elem_of_In, List.filter_In; split;
    try (by apply list_elem_of_In); by rewrite ?Hm.
Qed.

Lemma MainTs_issued body :
  snd (MainTs.handleEvent body)
  = (fun m => GET "SERVER_HOSTNAME"
                (MainTs.MCSTATUS_callback {| replyToken := m.1 |}))
      <$> status_messages (events body).
Proof.
  unfold MainTs.handleEvent. cbv zeta. cbn [snd].
  rewrite (list_fmap_ext _ _ _ (fun _ e _ => MainTs_each e)).
  apply issued_status.
Qed.

Lemma Part000_issued w body :
  snd (Part000.handleEvent w body)
  = (fun m => GET "serverURL"
                (Part000.MCSTATUS_callback w {| replyToken := m.1 |}))
      <$> status_messages (events body).
Proof.
  unfold Part000.handleEvent. cbv zeta. cbn [snd].
  rewrite (list_fmap_ext _ _ _ (fun _ e _ => Part000_each w e)).
  apply issued_status.
Qed.




(** X8: the number of reads of the store a batch causes is the number of
    its STATUS commands, and every read is of the program's own key. *)
Theorem one_store_read_per_status_command :
  forall (w : World) (body : WebhookRequestBody),
    length (snd (MainTs.handleEvent body))
    = length (status_messages (events body))
    /\ Forall (fun c => command_key c = "SERVER_HOSTNAME")
         (snd (MainTs.handleEvent body))
    /\ length (snd (Part000.handleEvent w body))
       = length (status_messages (events body))
    /\ Forall (fun c => command_key c = "serverURL")
         (snd (Part000.handleEvent w body)).
Proof.
  intros w body. rewrite MainTs_issued, Part000_issued, !length_fmap.
  repeat split; try done; apply Forall_fmap, Forall_true; done.
Qed.

Lemma defined_each key callback e :
  defined (returned (each_with key callback e)) = true
  <-> exists token t, e = MessageEvent token (TextEventMessage t)
                      /\ extractCommand t <> MCSTATUS.
Proof.
  destruct e as [token [t| | | | | |]| | | | | |]; simpl;
    try (split; [done | by intros (? & ? & [=] & _)]).
  destruct (extractCommand t) eqn:Hc; simpl.
  - split; [intros _; exists token, t; by rewrite Hc | done].
  - split; [done | intros (? & ? & [= <- <-] & H); congruence].
  - split; [intros _; exists token, t; by rewrite Hc | done].
Qed.

(** X9: [handleEvent] returns one entry per event, at the event's own
    position, and the entry is a promise (not [undefined]) exactly when
    the event is a text message that is not a STATUS command. Both
    programs. *)
Theorem handleEvent_entry_per_event :
  forall (w : World) (body : WebhookRequestBody) (i : nat) (e : WebhookEvent),
    events body !! i = Some e ->
    (length (fst (MainTs.handleEvent body)) = length (events body)
     /\ exists v, fst (MainTs.handleEvent body) !! i = Some v
                  /\ (defined v = true
                      <-> exists token t,
                            e = MessageEvent token (TextEventMessage t)
                            /\ extractCommand t <> MCSTATUS))
    /\ (length (fst (Part000.handleEvent w body)) = length (events body)
        /\ exists v, fst (Part000.handleEvent w body) !! i = Some v
                     /\ (defined v = true
                         <-> exists token t,
                               e = MessageEvent token (TextEventMessage t)
                               /\ extractCommand t <> MCSTATUS)).
Proof.
  intros w body i e Hi.
  unfold MainTs.handleEvent, Part000.handleEvent. cbv zeta. cbn [fst].
  rewrite !length_fmap, !list_lookup_fmap, Hi. cbn [fmap option_fmap option_map].
  split; (split; [done|]); eexists; (split; [done|]).
  - rewrite MainTs_each. apply defined_each.
  - rewrite Part000_each. apply defined_each.
Qed.

(** X9 at the second event of a batch, a STATUS command. *)
Lemma handleEvent_entry_per_event_witness :
  exists v, fst (MainTs.handleEvent
                   {| events := [MessageEvent "t1" (TextEventMessage "/help");
                                 MessageEvent "t2" (TextEventMessage "/mcstatus")] |})
            !! 1%nat = Some v
            /\ (defined v = true
                <-> exists token t,
                      MessageEvent "t2" (TextEventMessage "/mcstatus")
                      = MessageEvent token (TextEventMessage t)
                      /\ extractCommand t <> MCSTATUS).
Proof.
  destruct (handleEvent_entry_per_event (a_world true)
              {| events := [MessageEvent "t1" (TextEventMessage "/help");
                            MessageEvent "t2" (TextEventMessage "/mcstatus")] |}
              1%nat (MessageEvent "t2" (TextEventMessage "/mcstatus")) eq_refl)
    as [[_ H] _].
  exact H.
Defined.

Lemma begins_whole x s : begins x (x +:+ s).
Proof. by exists s. Qed.

(** Finds a piece of text that may end in a field of the snapshot. *)
Ltac find_field_begins :=
  solve [repeat first [ apply begins_nil | apply begins_char | apply begins_app
                      | apply begins_whole ]].

Ltac find_field :=
  first [ apply contains_begins; find_field_begins
        | apply contains_skip_char; find_field
        | apply contains_skip_app; find_field ].

(** X13: a STATUS command answered by the game server. When the store is up
    and holds an address, the status query succeeds and the LINE API
    accepts the reply, exactly one reply call is made: the formatted status,
    which shows the server's version and its "online/max" player count. The
    hostname program queries the stored value as it is; the server-URL
    program queries the host name and the port of the stored URL and shows
    that port. *)
Theorem status_success_replies_formatted_status :
  forall (w : World) (r : Redis) (token t v : string) (srvResp : StatusResponse),
    extractCommand t = MCSTATUS -> fault r = None ->
    (data r !! "SERVER_HOSTNAME" = Some v ->
     mc_query w v None = Some srvResp ->
     line_accepts w token
       {| type := "text"; text := MainTs.formatServerResponse srvResp |} = true ->
     calls (MainTs.webhook w r (one_text token t))
     = [reply_call token (MainTs.formatServerResponse srvResp)]
     /\ contains (version srvResp) (MainTs.formatServerResponse srvResp)
     /\ contains (Number_toString (onlinePlayers srvResp) +:+ "/"
                    +:+ Number_toString (maxPlayers srvResp))
          (MainTs.formatServerResponse srvResp))
    /\ (forall u : URL,
          data r !! "serverURL" = Some v -> new_URL w v = Some u ->
          mc_query w (hostname u)
            (Some {| options_port := parseInt (URL_port u) |}) = Some srvResp ->
          line_accepts w token
            {| type := "text";
               text := Part000.formatServerResponse srvResp (Some (URL_port u)) |}
          = true ->
          calls (Part000.webhook w r (one_text token t))
          = [reply_call token
               (Part000.formatServerResponse srvResp (Some (URL_port u)))]
          /\ contains (version srvResp)
               (Part000.formatServerResponse srvResp (Some (URL_port u)))
          /\ contains (Number_toString (onlinePlayers srvResp) +:+ "/"
                         +:+ Number_toString (maxPlayers srvResp))
               (Part000.formatServerResponse srvResp (Some (URL_port u)))
          /\ contains ("Server port: " +:+ URL_port u)
               (Part000.formatServerResponse srvResp (Some (URL_port u)))).
Proof.
  intros w r token t v srvResp Hcmd Hf. split.
  - intros Hd Hq Hl. split.
    + rewrite (MainTs_status_calls w r token t Hcmd). cbn [calls].
      unfold run_command, redis_get. rewrite Hf, Hd. simpl. rewrite Hq. simpl.
      unfold linePromiseReply. cbn [replyToken]. by rewrite Hl.
    + unfold MainTs.formatServerResponse, LF.
      split; rewrite ?append_cons; find_field.
  - intros u Hd Hu Hq Hl. split.
    + rewrite (Part000_status_calls w r token t Hcmd). cbn [calls].
      unfold run_command, redis_get. rewrite Hf, Hd. simpl. rewrite Hu. simpl.
      rewrite Hq. simpl. unfold linePromiseReply. cbn [replyToken].
      by rewrite Hl.
    + unfold Part000.formatServerResponse, LF.
      repeat split; rewrite ?append_cons; find_field.
Qed.

(** X13 at a registered host whose server answers. *)
Lemma status_success_replies_formatted_status_witness :
  calls (MainTs.webhook (a_world true)
           (store_with "SERVER_HOSTNAME" "mc.example.com")
           (one_text "tok" "/mcstatus"))
  = [reply_call "tok" (MainTs.formatServerResponse a_snapshot)].
Proof.
  destruct (status_success_replies_formatted_status (a_world true)
              (store_with "SERVER_HOSTNAME" "mc.example.com")
              "tok" "/mcstatus" "mc.example.com" a_snapshot eq_refl eq_refl)
    as [H _].
  destruct (H eq_refl eq_refl eq_refl) as [H' _]. exact H'.
Defined.

(** X15: registration and STATUS work on the same key. After a
    registration that passes validation and carries the address in its
    body, a STATUS command queries the game server at that address and,
    when the query succeeds and the LINE API accepts the reply, answers
    with the formatted status. Both programs. *)
Theorem registered_address_is_queried :
  forall (env : gmap string string) (w : World) (req : Request) (s : Server)
         (a v token t : string) (srvResp : StatusResponse),
    headers req !! "authorization" = Some a -> env !! "AUTH_KEY" = Some a ->
    fault (redis s) = None -> extractCommand t = MCSTATUS ->
    (run_chain w MainTs.serverHostnameValidation_chain req = [] ->
     body req !! "serverHostname" = Some v ->
     mc_query w v None = Some srvResp ->
     line_accepts w token
       {| type := "text"; text := MainTs.formatServerResponse srvResp |} = true ->
     calls (MainTs.webhook w (redis (MainTs.setServerHostname env w req s))
              (one_text token t))
     = [reply_call token (MainTs.formatServerResponse srvResp)])
    /\ (forall u : URL,
          run_chain w Part000.serverURLValidation_chain req = [] ->
          body req !! "serverURL" = Some v ->
          new_URL w v = Some u ->
          mc_query w (hostname u)
            (Some {| options_port := parseInt (URL_port u) |}) = Some srvResp ->
          line_accepts w token
            {| type := "text";
               text := Part000.formatServerResponse srvResp (Some (URL_port u)) |}
          = true ->
          calls (Part000.webhook w (redis (Part000.serverURL env w req s))
                   (one_text token t))
          = [reply_call token
               (Part000.formatServerResponse srvResp (Some (URL_port u)))]).
Proof.
  intros env w req s a v token t srvResp Hh He Hf Hcmd. split.
  - intros Hok Hb Hq Hl.
    rewrite (MainTs_route_accepts env w req s a Hh He Hok), Hb.
    rewrite redis_of_set_callback, (redis_set_up _ _ _ Hf). cbn [redis fst].
    rewrite (MainTs_status_calls w _ token t Hcmd). cbn [calls].
    unfold run_command, redis_get. cbn [fault data].
    rewrite lookup_insert_eq. simpl. rewrite Hq. simpl.
    unfold linePromiseReply. cbn [replyToken]. by rewrite Hl.
  - intros u Hok Hb Hu Hq Hl.
    rewrite (Part000_route_accepts env w req s a Hh He Hok), Hb.
    rewrite redis_of_set_callback, (redis_set_up _ _ _ Hf). cbn [redis fst].
    rewrite (Part000_status_calls w _ token t Hcmd). cbn [calls].
    unfold run_command, redis_get. cbn [fault data].
    rewrite lookup_insert_eq. simpl. rewrite Hu. simpl. rewrite Hq. simpl.
    unfold linePromiseReply. cbn [replyToken]. by rewrite Hl.
Qed.

(** X15 at the registration of "tcp://mc.example.com:25565" followed by a
    STATUS command. *)
Lemma registered_address_is_queried_witness :
  calls (Part000.webhook (a_world true)
           (redis (Part000.serverURL an_env (a_world true)
                     (a_request (Some "s3cret") "serverURL"
                        (Some "tcp://mc.example.com:25565"))
                     (a_server empty_store)))
           (one_text "tok" "/mcstatus"))
  = [reply_call "tok" (Part000.formatServerResponse a_snapshot (Some "25565"))].
Proof.
  destruct (registered_address_is_queried an_env (a_world true)
              (a_request (Some "s3cret") "serverURL"
                 (Some "tcp://mc.example.com:25565"))
              (a_server empty_store) "s3cret" "tcp://mc.example.com:25565"
              "tok" "/mcstatus" a_snapshot eq_refl eq_refl eq_refl eq_refl)
    as [_ H].
  apply (H {| hostname := "mc.example.com"; URL_port := "25565" |}).
  - vm_compute. reflexivity.
  - reflexivity.
  - reflexivity.
  - reflexivity.
  - reflexivity.
Defined.

(** ** Runs of the event loop *)

Lemma whole_of_reply w {A : Type} token message
    (k : Settled MessageAPIResponseBase -> Proc A) :
  whole_of w (AwaitReply token message k)
  = ((whole_of w (k (if line_accepts w token message
                     then Fulfilled APIResponse else Rejected HTTPError))).1,
     {| call_token := token; call_message := message |}
       :: (whole_of w (k (if line_accepts w token message
                          then Fulfilled APIResponse
                          else Rejected HTTPError))).2).
Proof. reflexivity. Qed.

Lemma whole_of_query w {A : Type} h o (k : Settled StatusResponse -> Proc A) :
  whole_of w (AwaitQuery h o k)
  = whole_of w (k (match mc_query w h o with
                   | Some response => Fulfilled response
                   | None => Rejected StatusError
                   end)).
Proof. reflexivity. Qed.

Lemma whole_of_then w {A B : Type} (p : Proc A) (f : A -> Proc B) :
  whole_of w (Proc_then p f)
  = match whole_of w p with
    | (Fulfilled v, c) => ((whole_of w (f v)).1, c ++ (whole_of w (f v)).2)
    | (Rejected e, c) => (Rejected e, c)
    end.
Proof.
  induction p as [[v|e]|t m k IH|h o k IH].
  - by destruct (whole_of w (f v)).
  - reflexivity.
  - cbn [Proc_then]. rewrite !whole_of_reply, IH.
    by destruct (whole_of w (k _)) as [[v|e] c].
  - cbn [Proc_then]. rewrite !whole_of_query. apply IH.
Qed.

Lemma whole_of_catch w {A : Type} (p : Proc A) (g : Error -> Proc A) :
  whole_of w (Proc_catch p g)
  = match whole_of w p with
    | (Fulfilled v, c) => (Fulfilled v, c)
    | (Rejected e, c) => ((whole_of w (g e)).1, c ++ (whole_of w (g e)).2)
    end.
Proof.
  induction p as [[v|e]|t m k IH|h o k IH].
  - reflexivity.
  - by destruct (whole_of w (g e)).
  - cbn [Proc_catch]. rewrite !whole_of_reply, IH.
    by destruct (whole_of w (k _)) as [[v|e] c].
  - cbn [Proc_catch]. rewrite !whole_of_query. apply IH.
Qed.

(** A started promise, run until nothing is left to answer, settles as
    [settle] says and makes the reply calls [settle] lists. *)
Lemma whole_of_start w {A : Type} (p : Promise A) :
  whole_of w (start p) = settle w p.
Proof.
  induction p as [token message|h o|A B p IHp f IHf|A p IHp g IHg|A e].
  - reflexivity.
  - reflexivity.
  - cbn [start settle]. rewrite whole_of_then, IHp.
    destruct (settle w p) as [[v|e] c]; [|done].
    rewrite IHf. by destruct (settle w (f v)).
  - cbn [start settle]. rewrite whole_of_catch, IHp.
    destruct (settle w p) as [[v|e] c]; [done|].
    rewrite IHg. by destruct (settle w (g e)).
  - reflexivity.
Qed.

(** A chain can be run to its end while everything else waits. *)
Lemma land_runs w r (p : Proc MessageAPIResponseBase) q before after lg :
  rtc (step w r) (land q before after lg p)
    (settled_loop q (before ++ after) lg (whole_of w p)).
Proof.
  revert lg. induction p as [[v|e]|t m k IH|h o k IH]; intros lg.
  - unfold settled_loop, whole_of. cbn. by rewrite app_nil_r.
  - unfold settled_loop, whole_of. cbn. by rewrite app_nil_r.
  - eapply rtc_l; [by apply step_answer|].
    eapply rtc_trans; [apply IH|].
    rewrite whole_of_reply. unfold settled_loop. cbn [fst snd made].
    by rewrite <- (assoc_L (++)).
  - eapply rtc_l; [by apply step_answer|].
    eapply rtc_trans; [apply IH|].
    rewrite whole_of_query. unfold settled_loop. cbn [made].
    by rewrite app_nil_r.
Qed.

(** The commands can be run one after the other, as [run_commands] does. *)
Lemma commands_run w r commands lg :
  exists q,
    rtc (step w r)
      {| queue := commands; flying := []; log := lg; ended := None |}
      {| queue := q; flying := []; log := lg ++ (run_commands w r commands).1;
         ended := head (run_commands w r commands).2 |}
    /\ (head (run_commands w r commands).2 = None -> q = []).
Proof.
  revert lg. induction commands as [|[key callback] rest IH]; intros lg.
  - exists []. cbn. by rewrite app_nil_r.
  - cbn [run_commands].
    destruct (callback (redis_get r key).1 (redis_get r key).2)
      as [p|e] eqn:Hcb.
    + assert (run_command w r (GET key callback)
              = ((settle w p).2,
                 match (settle w p).1 with
                 | Rejected e => [e]
                 | Fulfilled _ => []
                 end)) as Hc.
      { unfold run_command. destruct (redis_get r key). cbn in Hcb.
        by rewrite Hcb. }
      rewrite !Hc. clear Hc.
      pose proof (land_runs w r (start p) rest [] [] lg) as Hrun.
      rewrite whole_of_start in Hrun. unfold settled_loop in Hrun.
      destruct (settle w p) as [[v|e] made_p]; cbn [fst snd app] in *.
      * destruct (IH (lg ++ made_p)) as (q & Hq & Hnone). exists q.
        split; [|done]. eapply rtc_l; [by apply step_returns|].
        eapply rtc_trans; [exact Hrun|].
        by rewrite (assoc_L (++)).
      * exists rest. split; [|done].
        eapply rtc_l; [by apply step_returns|exact Hrun].
    + assert (run_command w r (GET key callback) = ([], [e])) as Hc.
      { unfold run_command. destruct (redis_get r key). cbn in Hcb.
        by rewrite Hcb. }
      rewrite !Hc. exists rest. cbn. rewrite app_nil_r. split; [|done].
      apply rtc_once. by apply step_throws.
Qed.

(** X21. The outcome [webhook] gives is the end of a run of the event loop,
    in both programs: the run that answers the commands one after the
    other makes the reply calls of [calls], in that order, and ends the
    process with the first error of [uncaught], if there is one. *)
Theorem webhook_is_a_run :
  forall w r body,
    (exists s, runs MainTs.handleEvent w r body s /\ finished s
               /\ log s = calls (MainTs.webhook w r body)
               /\ ended s = head (uncaught (MainTs.webhook w r body)))
    /\ (exists s, runs (Part000.handleEvent w) w r body s /\ finished s
                  /\ log s = calls (Part000.webhook w r body)
                  /\ ended s = head (uncaught (Part000.webhook w r body))).
Proof.
  assert (forall handleEvent w r body,
            exists s, runs handleEvent w r body s /\ finished s
                      /\ log s = calls (serve_webhook handleEvent w r body)
                      /\ ended s = head (uncaught (serve_webhook handleEvent w r body)))
    as Hgen.
  { intros handleEvent w r body. unfold runs, boot, serve_webhook.
    destruct (handleEvent body) as [results commands]. cbn [fst snd].
    destruct (commands_run w r commands (immediate_calls w results))
      as (q & Hrun & Hq).
    eexists. split; [exact Hrun|]. split; [|done].
    unfold finished. cbn [ended queue flying].
    destruct (head (run_commands w r commands).2); [by left|right; auto]. }
  intros w r body. split; apply Hgen.
Qed.

Lemma replies_to_mono (P Q : string -> Prop) {A : Type} (p : Proc A) :
  (forall t, P t -> Q t) -> replies_to P p -> replies_to Q p.
Proof.
  intros HPQ. induction p as [s|t m k IH|h o k IH]; cbn; [done| |].
  - intros [Ht Hk]. split; [by apply HPQ|]. intros s. by apply IH.
  - intros Hk s. by apply IH.
Qed.

Lemma replies_to_made (P : string -> Prop) {A : Type} (p : Proc A) :
  replies_to P p -> Forall (fun c => P (call_token c)) (made p).
Proof.
  destruct p as [s|t m k|h o k]; cbn; [done| |done].
  intros [Ht _]. by apply Forall_singleton.
Qed.

Lemma replies_to_answered (P : string -> Prop) w {A : Type} (p next : Proc A) :
  replies_to P p -> answered w p = Some next -> replies_to P next.
Proof.
  destruct p as [s|t m k|h o k]; cbn; [done| |].
  - intros [_ Hk] [= <-]. apply Hk.
  - intros Hk [= <-]. apply Hk.
Qed.

Lemma land_replies (P : string -> Prop) q before after lg p :
  replies_to P p -> Forall (replies_to P) (before ++ after) ->
  exists more,
    log (land q before after lg p) = lg ++ more
    /\ Forall (fun c => P (call_token c)) more
    /\ queue (land q before after lg p) = q
    /\ Forall (replies_to P) (flying (land q before after lg p)).
Proof.
  intros Hp Hfl.
  assert (Forall (replies_to P) (before ++ p :: after)) as Hfl'.
  { apply Forall_app in Hfl as [Hb Ha]. apply Forall_app. split; [done|].
    by apply Forall_cons. }
  destruct p as [[v|e]|t m k|h o k]; cbn [land log queue flying].
  - exists []. by rewrite app_nil_r.
  - exists []. by rewrite app_nil_r.
  - eexists. split; [done|]. split; [|done]. by apply replies_to_made.
  - eexists. split; [done|]. split; [|done]. by apply replies_to_made.
Qed.

Lemma step_replies (P : string -> Prop) w r s s' :
  step w r s s' ->
  Forall (answers P) (queue s) -> Forall (replies_to P) (flying s) ->
  exists more,
    log s' = log s ++ more
    /\ Forall (fun c => P (call_token c)) more
    /\ Forall (answers P) (queue s')
    /\ Forall (replies_to P) (flying s').
Proof.
  intros [key callback q fl lg e Hcb|key callback q fl lg p Hcb
         |q before p after lg next Hnext]; cbn [queue flying log];
    intros Hq Hfl.
  - exists []. rewrite app_nil_r. apply Forall_cons in Hq as [_ Hq]. done.
  - apply Forall_cons in Hq as [Hc Hq].
    destruct (land_replies P q fl [] lg (start p)) as (more & Hlog & Hmore & Hqueue & Hfly).
    { by eapply Hc. }
    { by rewrite app_nil_r. }
    exists more. by rewrite Hqueue.
  - destruct (land_replies P q before after lg next)
      as (more & Hlog & Hmore & Hqueue & Hfly).
    { apply Forall_app in Hfl as [_ Hfl]. apply Forall_cons in Hfl as [Hp _].
      by eapply replies_to_answered. }
    { apply Forall_app in Hfl as [Hb Ha]. apply Forall_cons in Ha as [_ Ha].
      by apply Forall_app. }
    exists more. by rewrite Hqueue.
Qed.

(** Whatever the order of the answers, the reply calls of a run are against
    the tokens the waiting commands and chains answer to. *)
Lemma run_replies (P : string -> Prop) w r s s' :
  rtc (step w r) s s' ->
  Forall (answers P) (queue s) -> Forall (replies_to P) (flying s) ->
  exists later,
    log s' = log s ++ later /\ Forall (fun c => P (call_token c)) later.
Proof.
  induction 1 as [s|s s1 s' Hstep _ IH]; intros Hq Hfl.
  - exists []. by rewrite app_nil_r.
  - destruct (step_replies P w r s s1 Hstep Hq Hfl)
      as (more & Hlog & Hmore & Hq1 & Hfl1).
    destruct (IH Hq1 Hfl1) as (later & Hlog' & Hlater).
    exists (more ++ later). rewrite Hlog', Hlog, (assoc_L (++)).
    split; [done|]. by apply Forall_app.
Qed.

Lemma MainTs_callback_replies token err reply p :
  MainTs.MCSTATUS_callback {| replyToken := token |} err reply = Returns p ->
  replies_to (fun t => t = token) (start p).
Proof.
  destruct err as [e|]; [|destruct reply as [v|]]; intros [= <-]; cbn;
    try done.
  intros [response|reason]; cbn; [|done].
  split; [done|]. by intros [?|?].
Qed.

Lemma Part000_callback_replies w token err reply p :
  Part000.MCSTATUS_callback w {| replyToken := token |} err reply = Returns p ->
  replies_to (fun t => t = token) (start p).
Proof.
  unfold Part000.MCSTATUS_callback.
  destruct err as [e|]; [|destruct reply as [v|]]; [by intros [= <-]| |by intros [= <-]].
  destruct (new_URL w v) as [u|] eqn:Hurl; [|done]. intros [= <-]. cbn.
  intros [response|reason]; cbn; [|done].
  split; [done|]. by intros [?|?].
Qed.

Lemma status_commands_answer key callback l :
  (forall token err reply p,
      callback {| replyToken := token |} err reply = Returns p ->
      replies_to (fun t => t = token) (start p)) ->
  Forall (answers (status_token l)) (command_of key callback <$> status_messages l).
Proof.
  intros Hcb. apply Forall_fmap, Forall_forall. intros m Hm err reply p Hp.
  eapply replies_to_mono; [|by eapply Hcb].
  intros t ->. by exists m.
Qed.

(** X6. In every run of a webhook request, of both programs, whatever the
    order in which the store, the game servers and the LINE API answer and
    however far the run gets: the replies to the text messages that are not
    STATUS commands come first, in the order of the batch, and every reply
    call after them is against the reply token of a STATUS command of the
    batch. *)
Theorem later_replies_answer_status_commands :
  forall w r body,
    (forall s, runs MainTs.handleEvent w r body s ->
       exists later,
         log s = static_calls (events body) ++ later
         /\ forall c, c ∈ later -> status_token (events body) (call_token c))
    /\ (forall s, runs (Part000.handleEvent w) w r body s ->
          exists later,
            log s = static_calls (events body) ++ later
            /\ forall c, c ∈ later -> status_token (events body) (call_token c)).
Proof.
  assert (forall key callback w r body s,
            (forall token err reply p,
                callback {| replyToken := token |} err reply = Returns p ->
                replies_to (fun t => t = token) (start p)) ->
            runs (handle_with (each_with key callback)) w r body s ->
            exists later,
              log s = static_calls (events body) ++ later
              /\ forall c, c ∈ later -> status_token (events body) (call_token c))
    as Hgen.
  { intros key callback w r body s Hcb Hrun. unfold runs in Hrun.
    rewrite boot_form in Hrun.
    destruct (run_replies (status_token (events body)) w r _ _ Hrun)
      as (later & Hlog & Hlater).
    { by apply status_commands_answer. }
    { done. }
    exists later. split; [done|]. by apply Forall_forall. }
  intros w r body. split; intros s Hrun.
  - apply (Hgen "SERVER_HOSTNAME" MainTs.MCSTATUS_callback w r); [|].
    + apply MainTs_callback_replies.
    + unfold runs, boot in *. by rewrite <- MainTs_handle.
  - apply (Hgen "serverURL" (Part000.MCSTATUS_callback w) w r); [|].
    + apply Part000_callback_replies.
    + unfold runs, boot in *. by rewrite <- Part000_handle.
Qed.

Ltac store_answers :=
  eapply rtc_l; [apply step_returns; reflexivity|]; vm_compute.

Ltac store_answers_and_callback_throws :=
  eapply rtc_l; [apply step_throws; reflexivity|]; vm_compute.

Ltac first_chain_answered :=
  eapply rtc_l; [eapply (step_answer _ _ _ []); reflexivity|]; vm_compute.

Ltac second_chain_answered :=
  eapply rtc_l; [eapply (step_answer _ _ _ [_]); reflexivity|]; vm_compute.

(** X6 at a batch with two STATUS commands whose queries are answered in
    the reverse order: the store answers both commands, the game server
    answers the second query and then the first, the LINE API accepts the
    replies. *)
Lemma later_replies_answer_status_commands_witness :
  let s := {| queue := []; flying := [];
              log := [reply_call "tok2" helpMessage;
                      reply_call "tok3" (MainTs.formatServerResponse a_snapshot);
                      reply_call "tok1" (MainTs.formatServerResponse a_snapshot)];
              ended := None |} in
  runs MainTs.handleEvent (a_world true)
    (store_with "SERVER_HOSTNAME" "mc.example.com") a_batch s
  /\ exists later,
       log s = static_calls (events a_batch) ++ later
       /\ forall c, c ∈ later -> status_token (events a_batch) (call_token c).
Proof.
  intros s.
  assert (runs MainTs.handleEvent (a_world true)
            (store_with "SERVER_HOSTNAME" "mc.example.com") a_batch s) as Hrun.
  { unfold runs. vm_compute.
    store_answers. store_answers.
    second_chain_answered. first_chain_answered.
    first_chain_answered. first_chain_answered.
    reflexivity. }
  split; [exact Hrun|].
  exact (proj1 (later_replies_answer_status_commands _ _ _) s Hrun).
Defined.

Lemma step_from_running w r s s' : step w r s s' -> ended s = None.
Proof. by intros []. Qed.

Lemma land_queue q before after lg p : queue (land q before after lg p) = q.
Proof. by destruct p as [[v|e]|t m k|h o k]. Qed.

Lemma land_log_incl q before after lg p c :
  c ∈ lg -> c ∈ log (land q before after lg p).
Proof.
  intros Hc. destruct p as [[v|e]|t m k|h o k]; cbn [land log]; try done;
    apply elem_of_app; by left.
Qed.

Lemma land_flying_incl q before after lg p p0 :
  p0 ∈ before ++ after -> p0 ∈ flying (land q before after lg p).
Proof.
  intros Hp. destruct p as [[v|e]|t m k|h o k]; cbn [land flying]; try done;
    apply elem_of_app in Hp as [Hp|Hp]; apply elem_of_app;
    [by left|right; by apply list_elem_of_further
    |by left|right; by apply list_elem_of_further].
Qed.

Lemma land_owes token q before after lg p :
  owes token p ->
  (exists p0, p0 ∈ flying (land q before after lg p) /\ waits_for token p0)
  \/ (exists c, c ∈ log (land q before after lg p) /\ call_token c = token).
Proof.
  destruct p as [s|t m k|h o k]; cbn [owes land flying log made]; [done| |].
  - intros ->. right. eexists.
    split; [apply elem_of_app; right; apply list_elem_of_here|done].
  - intros Hw. left. eexists.
    split; [apply elem_of_app; right; apply list_elem_of_here|exact Hw].
Qed.

Section Pending.

Variable key : string.
Variable callback : ReplyableEvent -> option Error -> option string ->
                    Completion (Promise MessageAPIResponseBase).
Variables (w : World) (r : Redis).

Hypothesis callback_owes :
  forall token err reply p,
    callback {| replyToken := token |} err reply = Returns p ->
    owes token (start p).

Lemma step_in_hand s s' m :
  step w r s s' -> ended s' = None ->
  in_hand key callback s m -> in_hand key callback s' m.
Proof.
  intros [key' cb q fl lg e Hcb|key' cb q fl lg p Hcb
         |q before p after lg next Hnext]; [done| |];
    intros Hended [Hq|[(p0 & Hp0 & Hw)|(c & Hc & Htoken)]];
    unfold in_hand; cbn [queue flying log] in *.
  - apply elem_of_cons in Hq as [Hq|Hq].
    + right. apply land_owes. unfold command_of in Hq.
      injection Hq as <- <-. by eapply callback_owes.
    + left. by rewrite land_queue.
  - right; left. exists p0. split; [|done].
    apply land_flying_incl. by rewrite app_nil_r.
  - right; right. exists c. split; [|done]. by apply land_log_incl.
  - left. by rewrite land_queue.
  - apply elem_of_app in Hp0 as [Hp0|Hp0];
      [|apply elem_of_cons in Hp0 as [->|Hp0]].
    + right; left. exists p0. split; [|done].
      apply land_flying_incl, elem_of_app. by left.
    + right. apply land_owes. destruct p as [st|t msg k|h o k]; [done..|].
      cbn in Hnext. injection Hnext as <-. cbn [waits_for] in Hw.
      match goal with |- owes _ (k ?a) => specialize (Hw a); by destruct (k a) end.
    + right; left. exists p0. split; [|done].
      apply land_flying_incl, elem_of_app. by right.
  - right; right. exists c. split; [|done]. by apply land_log_incl.
Qed.

Lemma run_in_hand s s' m :
  rtc (step w r) s s' -> ended s' = None ->
  in_hand key callback s m -> in_hand key callback s' m.
Proof.
  intros Hrun. revert s' Hrun.
  apply (rtc_ind_r (fun s' => ended s' = None -> in_hand key callback s m ->
                              in_hand key callback s' m)); [done|].
  intros y z _ Hstep IH Hz Hm.
  apply (step_in_hand y z m Hstep Hz), IH; [|done].
  by eapply step_from_running.
Qed.

Lemma boot_in_hand body m :
  m ∈ text_messages (events body) ->
  in_hand key callback (boot (handle_with (each_with key callback)) w body) m.
Proof.
  intros Hm. rewrite boot_form. unfold in_hand. cbn [queue flying log].
  destruct (text_message_sorted m _ Hm) as [[_ Hin]|[_ Hin]].
  - right; right. exists (reply_call m.1 (static_text m.2)). split; [|done].
    by apply (list_elem_of_fmap_2 (fun m => reply_call m.1 (static_text m.2))).
  - left. by apply (list_elem_of_fmap_2 (command_of key callback)).
Qed.

Lemma completed_run_answers body s m :
  runs (handle_with (each_with key callback)) w r body s ->
  queue s = [] -> flying s = [] -> ended s = None ->
  m ∈ text_messages (events body) ->
  exists c, c ∈ log s /\ call_token c = m.1.
Proof.
  intros Hrun Hq Hfl Hended Hm.
  destruct (run_in_hand _ _ m Hrun Hended (boot_in_hand body m Hm))
    as [Hin|[(p & Hin & _)|Hc]]; [| |done].
  - rewrite Hq in Hin. by apply elem_of_nil in Hin.
  - rewrite Hfl in Hin. by apply elem_of_nil in Hin.
Qed.

End Pending.

Lemma MainTs_callback_owes token err reply p :
  MainTs.MCSTATUS_callback {| replyToken := token |} err reply = Returns p ->
  owes token (start p).
Proof.
  destruct err as [e|]; [|destruct reply as [v|]]; intros [= <-]; cbn;
    try done.
  by intros [response|reason].
Qed.

Lemma Part000_callback_owes w token err reply p :
  Part000.MCSTATUS_callback w {| replyToken := token |} err reply = Returns p ->
  owes token (start p).
Proof.
  unfold Part000.MCSTATUS_callback.
  destruct err as [e|]; [|destruct reply as [v|]]; [by intros [= <-]| |by intros [= <-]].
  destruct (new_URL w v) as [u|] eqn:Hurl; [|done]. intros [= <-]. cbn.
  by intros [response|reason].
Qed.

(** X10. The hostname program answers every text message of a batch once
    the callbacks have run: in every run of a webhook request in which the
    store has answered every command, every chain has settled and nothing
    has ended the process, whatever the order of the answers, a reply call
    has been made against the reply token of each text message. (While the
    link to the store is down the commands stay in the queue and no such
    state is reached.) *)
Theorem hostname_program_completed_run_answers_every_text_message :
  forall w r body s token t,
    runs MainTs.handleEvent w r body s ->
    queue s = [] -> flying s = [] -> ended s = None ->
    (token, t) ∈ text_messages (events body) ->
    exists c, c ∈ log s /\ call_token c = token.
Proof.
  intros w r body s token t Hrun Hq Hfl Hended Hm.
  apply (completed_run_answers "SERVER_HOSTNAME" MainTs.MCSTATUS_callback w r
           MainTs_callback_owes body s (token, t)); done.
Qed.

(** X10 at a batch with two STATUS commands and a HELP command, the second
    query answered before the first. *)
Lemma hostname_program_completed_run_answers_every_text_message_witness :
  let s := {| queue := []; flying := [];
              log := [reply_call "tok2" helpMessage;
                      reply_call "tok3" (MainTs.formatServerResponse a_snapshot);
                      reply_call "tok1" (MainTs.formatServerResponse a_snapshot)];
              ended := None |} in
  runs MainTs.handleEvent (a_world true)
    (store_with "SERVER_HOSTNAME" "mc.example.com") a_batch s
  /\ exists c, c ∈ log s /\ call_token c = "tok1".
Proof.
  intros s.
  assert (runs MainTs.handleEvent (a_world true)
            (store_with "SERVER_HOSTNAME" "mc.example.com") a_batch s) as Hrun.
  { unfold runs. vm_compute.
    store_answers. store_answers.
    second_chain_answered. first_chain_answered.
    first_chain_answered. first_chain_answered.
    reflexivity. }
  split; [exact Hrun|].
  apply (hostname_program_completed_run_answers_every_text_message
           _ _ a_batch s "tok1" "/mcstatus" Hrun); try reflexivity.
  vm_compute. apply list_elem_of_here.
Defined.

(** X11. The server-URL program answers every text message of a batch once
    the callbacks have run without an error: in every run of a webhook
    request in which the store has answered every command, every chain has
    settled and nothing has ended the process, a reply call has been made
    against the reply token of each text message. *)
Theorem server_URL_program_completed_run_answers_every_text_message :
  forall w r body s token t,
    runs (Part000.handleEvent w) w r body s ->
    queue s = [] -> flying s = [] -> ended s = None ->
    (token, t) ∈ text_messages (events body) ->
    exists c, c ∈ log s /\ call_token c = token.
Proof.
  intros w r body s token t Hrun Hq Hfl Hended Hm.
  apply (completed_run_answers "serverURL" (Part000.MCSTATUS_callback w) w r
           (Part000_callback_owes w) body s (token, t)); done.
Qed.

(** X11 at a registered address that parses, with a game server that
    answers: the store answers the command, the game server the query, the
    LINE API the reply. *)
Lemma server_URL_program_completed_run_answers_every_text_message_witness :
  let s := {| queue := []; flying := [];
              log := [reply_call "tok"
                        (Part000.formatServerResponse a_snapshot (Some "25565"))];
              ended := None |} in
  runs (Part000.handleEvent (a_world true)) (a_world true)
    (store_with "serverURL" "tcp://mc.example.com:25565")
    (one_text "tok" "/mcstatus") s
  /\ exists c, c ∈ log s /\ call_token c = "tok".
Proof.
  intros s.
  assert (runs (Part000.handleEvent (a_world true)) (a_world true)
            (store_with "serverURL" "tcp://mc.example.com:25565")
            (one_text "tok" "/mcstatus") s) as Hrun.
  { unfold runs. vm_compute.
    store_answers. first_chain_answered. first_chain_answered.
    reflexivity. }
  split; [exact Hrun|].
  apply (server_URL_program_completed_run_answers_every_text_message
           _ _ (one_text "tok" "/mcstatus") s "tok" "/mcstatus" Hrun);
    try reflexivity.
  vm_compute. apply list_elem_of_here.
Defined.

(** X12. With a registered address that [new URL] refuses, the server-URL
    program never replies to a STATUS command, in any run: the callback of
    the first STATUS command the store answers throws, which ends the
    process; the commands after it are never answered. The replies to the
    other text messages have been made before. *)
Theorem unparseable_address_ends_the_process_at_the_first_status_command :
  forall w r body v s,
    fault r = None -> data r !! "serverURL" = Some v -> new_URL w v = None ->
    runs (Part000.handleEvent w) w r body s ->
    log s = static_calls (events body) /\ flying s = []
    /\ ((ended s = None
         /\ queue s = command_of "serverURL" (Part000.MCSTATUS_callback w)
                        <$> status_messages (events body))
        \/ (ended s = Some TypeError_InvalidURL
            /\ exists m rest,
                 status_messages (events body) = m :: rest
                 /\ queue s = command_of "serverURL" (Part000.MCSTATUS_callback w)
                                <$> rest)).
Proof.
  intros w r body v s Hf Hd Hu Hrun. unfold runs in Hrun.
  change (boot (Part000.handleEvent w) w body)
    with (boot (handle_with (each_with "serverURL" (Part000.MCSTATUS_callback w)))
            w body) in Hrun.
  rewrite boot_form in Hrun. revert s Hrun. apply rtc_ind_r.
  { split; [done|]. split; [done|]. by left. }
  intros y z _ Hstep (Hlog & Hfl & [[Hend Hq]|[Hend _]]).
  - assert (forall token,
              Part000.MCSTATUS_callback w {| replyToken := token |}
                (redis_get r "serverURL").1 (redis_get r "serverURL").2
              = Throws TypeError_InvalidURL) as Hthrows.
    { intros token. unfold redis_get. rewrite Hf. cbn [fst snd]. rewrite Hd.
      unfold Part000.MCSTATUS_callback. by rewrite Hu. }
    destruct Hstep as [key callback q fl lg e Hcb|key callback q fl lg p Hcb
                      |q before p after lg next Hnext]; cbn [queue flying log ended] in *.
    + destruct (status_messages (events body)) as [|m rest]; [done|].
      injection Hq as -> -> ->. rewrite Hthrows in Hcb. injection Hcb as <-.
      split; [done|]. split; [done|]. right. split; [done|]. by exists m, rest.
    + destruct (status_messages (events body)) as [|m rest]; [done|].
      injection Hq as -> -> ->. by rewrite Hthrows in Hcb.
    + by destruct before.
  - apply step_from_running in Hstep. congruence.
Qed.

(** X12 at a batch with two STATUS commands and a stored address without a
    scheme: the store answers the first command, its callback throws, the
    second command is never answered. *)
Lemma unparseable_address_ends_the_process_at_the_first_status_command_witness :
  let w := a_world true in
  let s := {| queue := [command_of "serverURL" (Part000.MCSTATUS_callback w)
                          ("tok3", "/mcstatus")];
              flying := [];
              log := [reply_call "tok2" helpMessage];
              ended := Some TypeError_InvalidURL |} in
  runs (Part000.handleEvent w) w (store_with "serverURL" "mc.example.com")
    a_batch s
  /\ log s = static_calls (events a_batch) /\ flying s = []
  /\ ((ended s = None
       /\ queue s = command_of "serverURL" (Part000.MCSTATUS_callback w)
                      <$> status_messages (events a_batch))
      \/ (ended s = Some TypeError_InvalidURL
          /\ exists m rest,
               status_messages (events a_batch) = m :: rest
               /\ queue s = command_of "serverURL" (Part000.MCSTATUS_callback w)
                              <$> rest)).
Proof.
  intros w s.
  assert (runs (Part000.handleEvent w) w (store_with "serverURL" "mc.example.com")
            a_batch s) as Hrun.
  { unfold runs. vm_compute. store_answers_and_callback_throws. reflexivity. }
  split; [exact Hrun|].
  apply (unparseable_address_ends_the_process_at_the_first_status_command
           w (store_with "serverURL" "mc.example.com") a_batch "mc.example.com" s);
    [reflexivity|vm_compute; reflexivity|vm_compute; reflexivity|exact Hrun].
Defined.

Lemma run_command_get w r key callback :
  run_command w r (GET key callback)
  = match callback (redis_get r key).1 (redis_get r key).2 with
    | Returns p => ((settle w p).2, error_of (settle w p).1)
    | Throws e => ([], [e])
    end.
Proof. unfold run_command. by destruct (redis_get r key). Qed.

Lemma rest_of_answered w {A : Type} (p next : Proc A) :
  answered w p = Some next -> rest_of w p = whole_of w next.
Proof. destruct p as [s|t m k|h o k]; [done| |]; by intros [= <-]. Qed.

Lemma whole_of_made w {A : Type} (p : Proc A) :
  whole_of w p = ((rest_of w p).1, made p ++ (rest_of w p).2).
Proof. reflexivity. Qed.

Lemma step_inv w r s s' :
  step w r s s' ->
  (exists key callback q e,
      queue s = GET key callback :: q
      /\ callback (redis_get r key).1 (redis_get r key).2 = Throws e
      /\ s' = {| queue := q; flying := flying s; log := log s; ended := Some e |})
  \/ (exists key callback q p,
        queue s = GET key callback :: q
        /\ callback (redis_get r key).1 (redis_get r key).2 = Returns p
        /\ s' = land q (flying s) [] (log s) (start p))
  \/ (exists before p after next,
        flying s = before ++ p :: after
        /\ answered w p = Some next
        /\ s' = land (queue s) before after (log s) next).
Proof.
  intros [key callback q fl lg e Hcb|key callback q fl lg p Hcb
         |q before p after lg next Hnext]; cbn [queue flying log].
  - left. by exists key, callback, q, e.
  - right; left. by exists key, callback, q, p.
  - right; right. by exists before, p, after, next.
Qed.

Lemma singleton_split {A : Type} (before after : list A) (x y : A) :
  [y] = before ++ x :: after -> before = [] /\ x = y /\ after = [].
Proof.
  destruct before as [|b [|b' before]]; [|done..]. by intros [= -> ->].
Qed.

(** The runs of a single command: nothing has happened, or the callback
    has thrown, or its chain is under way and comes to the end the
    sequential run gives. *)
Lemma single_command_runs w r key callback lg0 s :
  rtc (step w r)
    {| queue := [GET key callback]; flying := []; log := lg0; ended := None |} s ->
  s = {| queue := [GET key callback]; flying := []; log := lg0; ended := None |}
  \/ (exists e,
        callback (redis_get r key).1 (redis_get r key).2 = Throws e
        /\ s = {| queue := []; flying := []; log := lg0; ended := Some e |})
  \/ (exists p lg p',
        callback (redis_get r key).1 (redis_get r key).2 = Returns p
        /\ s = land [] [] [] lg p'
        /\ settled_loop [] [] lg (whole_of w p')
           = settled_loop [] [] lg0 (settle w p)).
Proof.
  revert s. apply rtc_ind_r; [by left|].
  intros y z _ Hstep [->|[(e & Hcb & ->)|(p & lg & p' & Hcb & -> & Hend)]].
  - apply step_inv in Hstep
      as [(key' & cb & q & e & Hq & Hcb & ->)
         |[(key' & cb & q & p & Hq & Hcb & ->)
          |(before & p & after & next & Hfl & _)]]; cbn [queue flying log] in *.
    + injection Hq as <- <- <-. right; left. by exists e.
    + injection Hq as <- <- <-. right; right.
      exists p, lg0, (start p). by rewrite whole_of_start.
    + by destruct before.
  - apply step_from_running in Hstep. done.
  - right; right. exists p.
    pose proof (step_from_running _ _ _ _ Hstep) as Hrunning.
    apply step_inv in Hstep
      as [(key' & cb & q & e & Hq & _)
         |[(key' & cb & q & p0 & Hq & _)
          |(before & p0 & after & next & Hfl & Hnext & ->)]];
      [by rewrite land_queue in Hq..|].
    rewrite land_queue.
    destruct p' as [[v|e]|t m k|h o k]; cbn [land flying log ended made app] in *;
      [by destruct before|done| |];
      apply singleton_split in Hfl as (-> & -> & ->);
      injection Hnext as <-; eexists _, _; (split; [done|]);
      (split; [reflexivity|]); rewrite <- Hend.
    + rewrite whole_of_reply. unfold settled_loop. cbn [fst snd].
      by rewrite <- (assoc_L (++)).
    + rewrite whole_of_query. unfold settled_loop. by rewrite app_nil_r.
Qed.

Lemma single_command_facts w r key callback lg0 s :
  rtc (step w r)
    {| queue := [GET key callback]; flying := []; log := lg0; ended := None |} s ->
  log s `prefix_of` lg0 ++ (run_command w r (GET key callback)).1
  /\ (finished s ->
      log s = lg0 ++ (run_command w r (GET key callback)).1
      /\ ended s = head (run_command w r (GET key callback)).2).
Proof.
  intros Hrun. rewrite run_command_get.
  destruct (single_command_runs w r key callback lg0 s Hrun)
    as [->|[(e & -> & ->)|(p & lg & p' & -> & -> & Hend)]]; cbn [log ended fst snd].
  - split; [by apply prefix_app_r|]. by intros [?|[? _]].
  - rewrite app_nil_r. done.
  - unfold settled_loop in Hend. injection Hend as Hlog Hended.
    rewrite <- Hlog. cbn [fst snd] in *.
    destruct p' as [[v|e]|t m k|h o k]; cbn [land log ended made rest_of fst snd app] in *.
    + rewrite app_nil_r. split; [done|]. intros _. split; [done|].
      by destruct (settle w p).1.
    + rewrite app_nil_r. split; [done|]. intros _. split; [done|].
      by destruct (settle w p).1.
    + split; [|by intros [?|[_ ?]]].
      apply prefix_app, prefix_cons, prefix_nil.
    + split; [|by intros [?|[_ ?]]].
      rewrite app_nil_r. by apply prefix_app_r.
Qed.

Lemma one_status_boot key callback w token t :
  extractCommand t = MCSTATUS ->
  boot (handle_with (each_with key callback)) w (one_text token t)
  = {| queue := [GET key (callback {| replyToken := token |})]; flying := [];
       log := []; ended := None |}.
Proof.
  intros Hcmd. unfold boot, handle_with.
  cbn [one_text events fmap list_fmap each_with]. by rewrite Hcmd.
Qed.

Lemma status_calls_at_most_two w r token :
  (length (run_command w r
             (GET "SERVER_HOSTNAME"
                (MainTs.MCSTATUS_callback {| replyToken := token |}))).1 <= 2)%nat
  /\ (length (run_command w r
                (GET "serverURL"
                   (Part000.MCSTATUS_callback w {| replyToken := token |}))).1
      <= 2)%nat.
Proof.
  split.
  - unfold run_command, redis_get, MainTs.MCSTATUS_callback.
    destruct (fault r); simpl; [lia|].
    destruct (data r !! "SERVER_HOSTNAME") as [v|]; simpl; [|lia].
    destruct (mc_query w _ _); simpl; [|lia].
    destruct (line_accepts w _ _); simpl; lia.
  - unfold run_command, redis_get, Part000.MCSTATUS_callback.
    destruct (fault r); simpl; [lia|].
    destruct (data r !! "serverURL") as [v|]; simpl; [|lia].
    destruct (new_URL w v) as [u|]; simpl; [|lia].
    destruct (mc_query w _ _); simpl; [|lia].
    destruct (line_accepts w _ _); simpl; lia.
Qed.

(** X14. A single STATUS command, in both programs: at every point of
    every run the reply calls made so far are the first ones of [calls], at
    most two; and when nothing is left to happen (the process has ended, or
    the store has answered and the chain has settled) they are exactly
    [calls], and the process has ended with the error of [uncaught], if
    any. Nothing is said to have been called before the store answers. *)
Theorem single_status_command_runs :
  forall w r token t,
    extractCommand t = MCSTATUS ->
    (forall s, runs MainTs.handleEvent w r (one_text token t) s ->
       log s `prefix_of` calls (MainTs.webhook w r (one_text token t))
       /\ (length (log s) <= 2)%nat
       /\ (finished s ->
           log s = calls (MainTs.webhook w r (one_text token t))
           /\ ended s = head (uncaught (MainTs.webhook w r (one_text token t)))))
    /\ (forall s, runs (Part000.handleEvent w) w r (one_text token t) s ->
          log s `prefix_of` calls (Part000.webhook w r (one_text token t))
          /\ (length (log s) <= 2)%nat
          /\ (finished s ->
              log s = calls (Part000.webhook w r (one_text token t))
              /\ ended s
                 = head (uncaught (Part000.webhook w r (one_text token t))))).
Proof.
  intros w r token t Hcmd.
  rewrite (MainTs_status_calls w r token t Hcmd).
  rewrite (Part000_status_calls w r token t Hcmd). cbn [calls uncaught].
  destruct (status_calls_at_most_two w r token) as [Hm Hp].
  split; intros s Hrun; unfold runs in Hrun.
  - change (boot MainTs.handleEvent w (one_text token t))
      with (boot (handle_with (each_with "SERVER_HOSTNAME" MainTs.MCSTATUS_callback))
              w (one_text token t)) in Hrun.
    rewrite (one_status_boot _ _ _ _ _ Hcmd) in Hrun.
    apply single_command_facts in Hrun as [Hpre Hfin]. cbn [app] in *.
    split; [done|]. split; [|done]. apply prefix_length in Hpre. lia.
  - change (boot (Part000.handleEvent w) w (one_text token t))
      with (boot (handle_with (each_with "serverURL" (Part000.MCSTATUS_callback w)))
              w (one_text token t)) in Hrun.
    rewrite (one_status_boot _ _ _ _ _ Hcmd) in Hrun.
    apply single_command_facts in Hrun as [Hpre Hfin]. cbn [app] in *.
    split; [done|]. split; [|done]. apply prefix_length in Hpre. lia.
Qed.

(** X14 at a registered host whose game server answers: the store answers
    the command, the game server the query, the LINE API the reply. *)
Lemma single_status_command_runs_witness :
  let s := {| queue := []; flying := [];
              log := [reply_call "tok" (MainTs.formatServerResponse a_snapshot)];
              ended := None |} in
  runs MainTs.handleEvent (a_world true)
    (store_with "SERVER_HOSTNAME" "mc.example.com") (one_text "tok" "/mcstatus") s
  /\ log s `prefix_of`
       calls (MainTs.webhook (a_world true)
                (store_with "SERVER_HOSTNAME" "mc.example.com")
                (one_text "tok" "/mcstatus"))
  /\ (length (log s) <= 2)%nat.
Proof.
  intros s.
  assert (runs MainTs.handleEvent (a_world true)
            (store_with "SERVER_HOSTNAME" "mc.example.com")
            (one_text "tok" "/mcstatus") s) as Hrun.
  { unfold runs. vm_compute.
    store_answers. first_chain_answered. first_chain_answered. reflexivity. }
  split; [exact Hrun|].
  destruct (proj1 (single_status_command_runs (a_world true)
                     (store_with "SERVER_HOSTNAME" "mc.example.com")
                     "tok" "/mcstatus" eq_refl) s Hrun) as (Hpre & Hlen & _).
  by split.
Defined.

Lemma land_to_come w r q before after lg p :
  ended (land q before after lg p) = None ->
  calls_to_come w r (land q before after lg p)
  ≡ₚ lg ++ (whole_of w p).2
        ++ mbind (fun p => (rest_of w p).2) (before ++ after)
        ++ mbind (fun c => (run_command w r c).1) q
  /\ errors_to_come w r (land q before after lg p)
     ≡ₚ error_of (whole_of w p).1
          ++ mbind (fun p => error_of (rest_of w p).1) (before ++ after)
          ++ mbind (fun c => (run_command w r c).2) q.
Proof.
  unfold calls_to_come, errors_to_come, whole_of.
  destruct p as [[v|e]|t m k|h o k];
    cbn [land queue flying log ended made rest_of fst snd error_of app];
    [done|done| |]; intros _; rewrite !bind_app, !bind_cons;
    split; solve_Permutation.
Qed.

Lemma step_to_come w r s s' :
  step w r s s' -> ended s' = None ->
  calls_to_come w r s' ≡ₚ calls_to_come w r s
  /\ errors_to_come w r s' ≡ₚ errors_to_come w r s.
Proof.
  intros [key callback q fl lg e Hcb|key callback q fl lg p Hcb
         |q before p after lg next Hnext]; [done| |]; intros Hended;
    destruct (land_to_come w r _ _ _ _ _ Hended) as [-> ->];
    unfold calls_to_come, errors_to_come; cbn [queue flying log].
  - rewrite !bind_cons, run_command_get, Hcb, whole_of_start, app_nil_r.
    cbn [fst snd]. split; solve_Permutation.
  - rewrite !bind_app, !bind_cons, (rest_of_answered w p next Hnext).
    split; solve_Permutation.
Qed.

(** The reply calls and the errors of a process are settled from the
    start: as long as nothing has ended it, a run only moves them from what
    is to come to what has happened. *)
Lemma run_to_come w r s s' :
  rtc (step w r) s s' -> ended s' = None ->
  calls_to_come w r s' ≡ₚ calls_to_come w r s
  /\ errors_to_come w r s' ≡ₚ errors_to_come w r s.
Proof.
  intros Hrun. revert s' Hrun.
  apply (rtc_ind_r (fun s' => ended s' = None ->
                              calls_to_come w r s' ≡ₚ calls_to_come w r s
                              /\ errors_to_come w r s' ≡ₚ errors_to_come w r s));
    [done|].
  intros y z _ Hstep IH Hended.
  destruct (step_to_come w r y z Hstep Hended) as [-> ->].
  apply IH. by eapply step_from_running.
Qed.

Lemma run_commands_clean w r commands :
  mbind (fun c => (run_command w r c).2) commands = [] ->
  run_commands w r commands
  = (mbind (fun c => (run_command w r c).1) commands, []).
Proof.
  induction commands as [|c rest IH]; [done|].
  rewrite !bind_cons. intros [Hc Hrest]%app_eq_nil.
  cbn [run_commands]. rewrite Hc, (IH Hrest). done.
Qed.

(** X16. The order of the answers does not change what a webhook request
    replies, in both programs: a run in which the store has answered every
    command, every chain has settled and nothing has ended the process has
    made the reply calls of [calls], up to their order; and then the run
    that answers the commands one after the other ends without an error
    too. *)
Theorem completed_runs_agree_up_to_order :
  forall w r body,
    (forall s, runs MainTs.handleEvent w r body s ->
       queue s = [] -> flying s = [] -> ended s = None ->
       Permutation (log s) (calls (MainTs.webhook w r body))
       /\ uncaught (MainTs.webhook w r body) = [])
    /\ (forall s, runs (Part000.handleEvent w) w r body s ->
          queue s = [] -> flying s = [] -> ended s = None ->
          Permutation (log s) (calls (Part000.webhook w r body))
          /\ uncaught (Part000.webhook w r body) = []).
Proof.
  assert (forall handleEvent w r body s,
            runs handleEvent w r body s ->
            queue s = [] -> flying s = [] -> ended s = None ->
            Permutation (log s) (calls (serve_webhook handleEvent w r body))
            /\ uncaught (serve_webhook handleEvent w r body) = []) as Hgen.
  { intros handleEvent w r body s Hrun Hq Hfl Hended.
    destruct (run_to_come w r _ _ Hrun Hended) as [Hcalls Herrors].
    unfold calls_to_come, errors_to_come, boot, serve_webhook in *.
    destruct (handleEvent body) as [results commands].
    rewrite Hq, Hfl in *. cbn [queue flying log fst snd mbind list_bind app] in *.
    rewrite app_nil_r in Hcalls.
    apply Permutation_nil_l in Herrors. symmetry in Herrors.
    rewrite (run_commands_clean w r commands Herrors). cbn [calls uncaught fst snd].
    done. }
  intros w r body. split; apply Hgen.
Qed.

(** X16 at a batch with two STATUS commands whose queries are answered in
    the reverse order: the replies come in another order than in [calls]. *)
Lemma completed_runs_agree_up_to_order_witness :
  let w := a_world true in
  let r := store_with "SERVER_HOSTNAME" "mc.example.com" in
  let s := {| queue := []; flying := [];
              log := [reply_call "tok2" helpMessage;
                      reply_call "tok3" (MainTs.formatServerResponse a_snapshot);
                      reply_call "tok1" (MainTs.formatServerResponse a_snapshot)];
              ended := None |} in
  runs MainTs.handleEvent w r a_batch s
  /\ Permutation (log s) (calls (MainTs.webhook w r a_batch))
  /\ uncaught (MainTs.webhook w r a_batch) = [].
Proof.
  intros w r s.
  assert (runs MainTs.handleEvent w r a_batch s) as Hrun.
  { unfold runs. vm_compute.
    store_answers. store_answers.
    second_chain_answered. first_chain_answered.
    first_chain_answered. first_chain_answered.
    reflexivity. }
  split; [exact Hrun|].
  exact (proj1 (completed_runs_agree_up_to_order w r a_batch) s Hrun
           eq_refl eq_refl eq_refl).
Defined.

(** ** More on the command extractor *)

Lemma contains_embed token before m after :
  contains token m -> contains token (before +:+ m +:+ after).
Proof.
  intros (pre & post & ->). exists (before +:+ pre), (post +:+ after).
  by rewrite !append_assoc.
Qed.

Lemma length_append (a b : string) :
  String.length (a +:+ b) = (String.length a + String.length b)%nat.
Proof.
  induction a as [|c a IH]; [done|].
  rewrite append_cons. simpl. by rewrite IH.
Qed.

Lemma contains_length token m :
  contains token m -> (String.length token <= String.length m)%nat.
Proof. intros (pre & post & ->). rewrite !length_append. lia. Qed.

Lemma command_rank_spec m :
  (command_rank (extractCommand m) = 2%nat <-> contains "/help" m)
  /\ ((1 <= command_rank (extractCommand m))%nat
      <-> contains "/help" m \/ contains "/mcstatus" m).
Proof.
  unfold extractCommand.
  pose proof (indexOf_test m "/help") as Hh.
  pose proof (indexOf_test m "/mcstatus") as Hs.
  destruct (negb (indexOf m "/help" =? -1)%Z),
           (negb (indexOf m "/mcstatus" =? -1)%Z); simpl.
  - split; [tauto|]. split; [tauto | lia].
  - split; [tauto|]. split; [tauto | lia].
  - split; [split; [lia|]|split; [tauto | lia]].
    intros H. apply Hh in H. discriminate H.
  - split; [split; [lia|]|split; [lia|]].
    + intros H. apply Hh in H. discriminate H.
    + intros [H|H]; [apply Hh in H | apply Hs in H]; discriminate H.
Qed.

(** X17: wrapping a text in more text never loses a command. With the
    commands ordered INVALID below STATUS below HELP, the command of a
    longer text that contains a shorter one is at least the command of the
    shorter one: HELP stays HELP, STATUS stays STATUS or becomes HELP. *)
Theorem extractCommand_embedding :
  forall before m after : string,
    (command_rank (extractCommand m)
     <= command_rank (extractCommand (before +:+ m +:+ after)))%nat.
Proof.
  intros before m after.
  destruct (command_rank_spec m) as [H2 H1].
  destruct (command_rank_spec (before +:+ m +:+ after)) as [H2' H1'].
  destruct (extractCommand m) eqn:Hm; simpl in *.
  - assert (H : contains "/help" (before +:+ m +:+ after))
      by (apply contains_embed; tauto).
    apply H2' in H. lia.
  - apply H1'. destruct H1 as [[H|H] _]; [lia | left | right];
      by apply contains_embed.
  - lia.
Qed.

(** X18: a text shorter than the status token is never a STATUS command,
    and a text shorter than the help token is always INVALID. *)
Theorem short_text_is_no_command :
  forall m : string,
    (String.length m < 9)%nat ->
    extractCommand m <> MCSTATUS
    /\ ((String.length m < 5)%nat -> extractCommand m = INVALID).
Proof.
  intros m Hlen. destruct (command_rank_spec m) as [H2 H1]. split.
  - intros Hc. rewrite Hc in H1, H2. simpl in *.
    destruct H1 as [[H|H] _]; [lia | |].
    + apply H2 in H. lia.
    + apply contains_length in H. simpl in H. lia.
  - intros Hlen5. destruct (extractCommand m); simpl in *; try done.
    + destruct H2 as [H _]. specialize (H eq_refl).
      apply contains_length in H. simpl in H. lia.
    + destruct H1 as [[H|H] _]; [lia | |];
        apply contains_length in H; simpl in H; lia.
Qed.

(** X18 at the text "/hel". *)
Lemma short_text_is_no_command_witness : extractCommand "/hel" = INVALID.
Proof.
  destruct (short_text_is_no_command "/hel") as [_ H].
  - simpl. lia.
  - apply H. simpl. lia.
Defined.

(** ** More on the status formatter *)

(** X19: the texts of the two programs differ by the port line alone: the
    server-URL program's text is the hostname program's text with the line
    "Server port: ..." put in after the address line. *)
Theorem formatters_differ_by_port_line :
  forall (srvResp : StatusResponse) (ngrokPort : option string),
    exists head tail : string,
      MainTs.formatServerResponse srvResp = head +:+ tail
      /\ Part000.formatServerResponse srvResp ngrokPort
         = head +:+ ("    Server port: " +:+ default "25565" ngrokPort +:+ LF)
             +:+ tail
      /\ head = LF +:+ "    Server address: " +:+ host srvResp +:+ LF +:+ LF.
Proof.
  intros srvResp ngrokPort.
  exists (LF +:+ "    Server address: " +:+ host srvResp +:+ LF +:+ LF).
  eexists. unfold MainTs.formatServerResponse, Part000.formatServerResponse.
  rewrite !append_assoc. split; [reflexivity|]. split; [|reflexivity].
  by destruct ngrokPort.
Qed.

(** ** Configuration *)

Lemma length_zero_empty (v : string) :
  (Z.of_nat (String.length v) =? 0)%Z = true <-> v = "".
Proof. destruct v; simpl; [done|]. split; [lia | done]. Qed.

Lemma env_or_unset env name key fallback :
  env_or (<[name := ""]> env) key fallback
  = env_or (delete name env) key fallback.
Proof.
  unfold env_or. destruct (decide (name = key)) as [->|Hne].
  - by rewrite lookup_insert_eq, lookup_delete_eq.
  - by rewrite lookup_insert_ne, lookup_delete_ne.
Qed.

Lemma env_or_nonempty env key fallback :
  fallback <> "" -> env_or env key fallback <> "".
Proof.
  intros Hf. unfold env_or. destruct (env !! key) as [v|]; [|done].
  destruct (Z.of_nat (String.length v) =? 0)%Z eqn:Hv; [done|].
  intros ->. simpl in Hv. discriminate Hv.
Qed.

Lemma env_or_spec env key fallback :
  (forall v, env !! key = Some v -> v <> "" -> env_or env key fallback = v)
  /\ (env !! key = None \/ env !! key = Some "" ->
      env_or env key fallback = fallback).
Proof.
  unfold env_or. split.
  - intros v -> Hv.
    destruct (Z.of_nat (String.length v) =? 0)%Z eqn:Hl; [|done].
    by apply length_zero_empty in Hl.
  - by intros [-> | ->].
Qed.

(** X20: the start-up configuration. Each of the two LINE credentials, the
    store address and the listening port is the text of its environment
    variable (CHANNEL_ACCESS_TOKEN, CHANNEL_SECRET, REDIS_URL, PORT) when
    that variable is set and non-empty, and the built-in default
    (YOUR_CHANNEL_ACCESS_TOKEN, YOUR_CHANNEL_SECRET,
    redis://localhost:6379/, the number 3000) when the variable is unset or
    set to the empty string, whatever else the environment holds. So no
    setting is ever empty, and a variable set to the empty string counts as
    unset. *)
Theorem configuration_falls_back_on_empty :
  forall (env : gmap string string) (name : string),
    ((forall v, env !! "CHANNEL_ACCESS_TOKEN" = Some v -> v <> "" ->
        channelAccessToken (lineConfig env) = v)
     /\ (env !! "CHANNEL_ACCESS_TOKEN" = None
         \/ env !! "CHANNEL_ACCESS_TOKEN" = Some "" ->
         channelAccessToken (lineConfig env) = "YOUR_CHANNEL_ACCESS_TOKEN")
     /\ (forall v, env !! "CHANNEL_SECRET" = Some v -> v <> "" ->
           channelSecret (lineConfig env) = v)
     /\ (env !! "CHANNEL_SECRET" = None \/ env !! "CHANNEL_SECRET" = Some "" ->
         channelSecret (lineConfig env) = "YOUR_CHANNEL_SECRET")
     /\ (forall v, env !! "REDIS_URL" = Some v -> v <> "" -> redisConfig env = v)
     /\ (env !! "REDIS_URL" = None \/ env !! "REDIS_URL" = Some "" ->
         redisConfig env = "redis://localhost:6379/")
     /\ (forall v, env !! "PORT" = Some v -> v <> "" ->
           listen_port env = PortText v)
     /\ (env !! "PORT" = None \/ env !! "PORT" = Some "" ->
         listen_port env = PortNumber 3000))
    /\ (lineConfig (<[name := ""]> env) = lineConfig (delete name env)
        /\ redisConfig (<[name := ""]> env) = redisConfig (delete name env)
        /\ listen_port (<[name := ""]> env) = listen_port (delete name env))
    /\ (channelAccessToken (lineConfig env) <> ""
        /\ channelSecret (lineConfig env) <> ""
        /\ redisConfig env <> ""
        /\ listen_port env <> PortText "").
Proof.
  intros env name. split; [|split].
  - unfold lineConfig, redisConfig. cbn [channelAccessToken channelSecret].
    destruct (env_or_spec env "CHANNEL_ACCESS_TOKEN" "YOUR_CHANNEL_ACCESS_TOKEN")
      as [H1 H2].
    destruct (env_or_spec env "CHANNEL_SECRET" "YOUR_CHANNEL_SECRET") as [H3 H4].
    destruct (env_or_spec env "REDIS_URL" "redis://localhost:6379/") as [H5 H6].
    repeat split; try done.
    + intros v Hv Hne. unfold listen_port. rewrite Hv.
      destruct (Z.of_nat (String.length v) =? 0)%Z eqn:Hl; [|done].
      by apply length_zero_empty in Hl.
    + unfold listen_port. by intros [-> | ->].
  - unfold lineConfig, redisConfig. rewrite !env_or_unset.
    repeat split. unfold listen_port.
    destruct (decide (name = "PORT")) as [->|Hne].
    + by rewrite lookup_insert_eq, lookup_delete_eq.
    + by rewrite lookup_insert_ne, lookup_delete_ne.
  - unfold lineConfig, redisConfig. cbn [channelAccessToken channelSecret].
    repeat split; try (by apply env_or_nonempty).
    unfold listen_port. destruct (env !! "PORT") as [v|]; [|done].
    destruct (Z.of_nat (String.length v) =? 0)%Z eqn:Hv; [done|].
    intros [= ->]. simpl in Hv. discriminate Hv.
Qed.
